(** * SolariBoard: a shallow embedding of [src/solari.js]

    The board of [solari.js] keeps one JavaScript array of numbers, the
    character buffer, holding a [(from, to)] pair for each of the 16 vertices
    of each cell, and rebuilds it in [setMessage].  This development embeds
    the constructor, [_buildBuffers], [setMessage], [update] and [draw] and
    proves the properties the specification states about them.

    Modelling conventions.
    - JavaScript numbers are exact rationals ([Q]); integers that are only
      counted or used as array positions are [nat], the entries of the index
      list are [Z].
    - A JavaScript array is a [list]; the character buffer is a
      [list (option Q)] in which [None] is [undefined] (a hole or a read past
      the end).  Writing past the end extends the array, as JavaScript does.
    - A string is the list of its UTF-16 code units.  [toUpperCase] and
      [toLowerCase] are builtins of the language, not code of the board:
      they are parameters (the class [JsString]), and the theorems hold for
      every pair of functions; where a theorem needs to know what they do, it
      assumes what the language says of them on ASCII text
      ([ascii_case_mapping]).
    - Arithmetic is exact: a sum or a product of the model stands for the
      same operation of the source, and nothing here speaks of its rounding.
    - [Math.random] is an oracle: [setMessage] receives the function giving
      the k-th number drawn during the call.
    - The graphics context is the trace of the calls issued on it. *)

From Stdlib Require Import ZArith QArith Qround Lqa Ascii List Lia.
From Stdlib Require String.
From stdpp Require Import base list.
Import String.StringSyntax.

Local Open Scope nat_scope.

(** ** JavaScript arrays *)

Module JsArray.

(** [a[i]] : [undefined] past the end. *)
Definition get {A} (a : list (option A)) (i : nat) : option A :=
  mjoin (a !! i).

(** [a[i] = v] : in place inside the array, extending it with holes past
    the end. *)
Definition set {A} (a : list (option A)) (i : nat) (v : option A)
  : list (option A) :=
  if decide (i < length a) then <[i:=v]> a
  else a ++ replicate (i - length a) None ++ [v].

(** [new Array(n)] : [n] holes. *)
Definition new (A : Type) (n : nat) : list (option A) := replicate n None.

End JsArray.

(** [for (i = 0; i < n; i++) body] over the variables [s] the body changes. *)
Definition for_loop {St : Type} (n : nat) (body : nat → St → St) (s : St)
    : St :=
  foldl (λ acc i, body i acc) s (seq 0 n).

(** ** Strings *)

(** A string is the list of its UTF-16 code units. *)
Abbreviation jsstring := (list N).


(** The upper-case and the lower-case form of an ASCII character: the
    letters are the codes 65-90 and 97-122, 32 apart. *)
Definition ascii_upper (c : N) : N :=
  if (97 <=? c)%N && (c <=? 122)%N then (c - 32)%N else c.

Definition ascii_lower (c : N) : N :=
  if (65 <=? c)%N && (c <=? 90)%N then (c + 32)%N else c.

(** [String.prototype.toUpperCase] and [String.prototype.toLowerCase]: the
    builtins of the language, taken as parameters.  The upper-case form of a
    string can be longer than the string. *)
Class JsString := {
  toUpperCase : jsstring → jsstring;
  toLowerCase : jsstring → jsstring
}.


(** [arr.indexOf(c)] : the first position of [c], [-1] when absent. *)
Fixpoint indexOf_from (arr : list N) (c : N) (pos : Z) : Z :=
  match arr with
  | [] => (-1)%Z
  | x :: rest =>
      if N.eq_dec x c then pos else indexOf_from rest c (pos + 1)%Z
  end.

Definition indexOf (arr : list N) (c : N) : Z := indexOf_from arr c 0.

(** ** The graphics context *)

Inductive GLTarget := ARRAY_BUFFER | ELEMENT_ARRAY_BUFFER.
Inductive GLUsage := STATIC_DRAW | DYNAMIC_DRAW.

Inductive GLData :=
| Float32Array (data : list (option Q))
| Uint16Array (data : list Z).

Inductive GLCall :=
| createBuffer (handle : nat)
| bindBuffer (target : GLTarget) (handle : nat)
| bufferData (target : GLTarget) (data : GLData) (usage : GLUsage)
| bufferSubData (target : GLTarget) (offset : nat) (data : GLData)
| enableVertexAttribArray (attrib : nat)
| vertexAttribPointer (attrib size stride offset : nat)
| drawElements (count : nat).

(** The context is the list of the calls it has received, oldest first. *)
Definition GL := list GLCall.

(** [gl.createBuffer()] returns a buffer object not handed out before. *)
Definition gl_createBuffer (gl : GL) : nat * GL :=
  (length gl, gl ++ [createBuffer (length gl)]).

(** ** The board *)

Record Options := mkOptions {
  opt_texture : nat;
  opt_chars : jsstring;
  opt_rows : nat;
  opt_cols : nat;
  opt_speed : option Q
}.

Record Board := mkBoard {
  texture : nat;
  chars : list N;
  rows : nat;
  cols : nat;
  speed : Q;
  timing : Q;
  verticesPerChar : nat;
  vertexBuffer : nat;
  indexBuffer : nat;
  charBufferObject : nat;
  charBuffer : list (option Q);
  charBufferDirty : bool;
  numIndices : nat
}.

Definition set_charBuffer (buf : list (option Q)) (b : Board) : Board :=
  mkBoard (texture b) (chars b) (rows b) (cols b) (speed b) (timing b)
    (verticesPerChar b) (vertexBuffer b) (indexBuffer b) (charBufferObject b)
    buf (charBufferDirty b) (numIndices b).

Definition set_charBufferDirty (d : bool) (b : Board) : Board :=
  mkBoard (texture b) (chars b) (rows b) (cols b) (speed b) (timing b)
    (verticesPerChar b) (vertexBuffer b) (indexBuffer b) (charBufferObject b)
    (charBuffer b) d (numIndices b).

Definition set_timing (t : Q) (b : Board) : Board :=
  mkBoard (texture b) (chars b) (rows b) (cols b) (speed b) t
    (verticesPerChar b) (vertexBuffer b) (indexBuffer b) (charBufferObject b)
    (charBuffer b) (charBufferDirty b) (numIndices b).

Definition set_numIndices (n : nat) (b : Board) : Board :=
  mkBoard (texture b) (chars b) (rows b) (cols b) (speed b) (timing b)
    (verticesPerChar b) (vertexBuffer b) (indexBuffer b) (charBufferObject b)
    (charBuffer b) (charBufferDirty b) n.

(** [this.chars.length], as a number. *)
Definition glyphCount (b : Board) : Z := Z.of_nat (length (chars b)).

(** [this.chars.length - 1], the index of the "space" glyph. *)
Definition blank (b : Board) : Z := (glyphCount b - 1)%Z.

(** ** [_buildBuffers] *)

Definition extend {A} (a1 a2 : list A) : list A := a1 ++ a2.

Definition addFaceIndices (arr : list Z) (a b c d : Z) : list Z :=
  arr ++ [c; d; a; c; a; b].

Definition charWidth : Q := 1%Q.
Definition charHeight : Q := 1%Q.
Definition spacing : Q := (1 # 10)%Q.

(** The two arrays the geometry loop appends to. *)
Record Buffers := mkBuffers {
  indices : list Z;
  vertices : list Q
}.

(** Add 4 vertices, texture coords and indices for each "flap". *)
Definition setupCharHalf (x y u v : Q) (i : Z) (animated flipped : bool)
    (bufs : Buffers) : Buffers :=
  let animated : Q := (if animated then 1 else 0)%Q in
  let z : Q := 0%Q in
  let topUV : Q := (if flipped then - (1 # 2) else 1 # 2)%Q in
  let vb := vertices bufs in
  let vb := extend vb [x; y; z] in
  let vb := extend vb [u; v] in
  let vb := extend vb [x + charWidth; y; z]%Q in
  let vb := extend vb [u + 1; v]%Q in
  let vb := extend vb [x + charWidth; y + charHeight; z + animated]%Q in
  let vb := extend vb [u + 1; v + topUV]%Q in
  let vb := extend vb [x; y + charHeight; z + animated]%Q in
  let vb := extend vb [u; v + topUV]%Q in
  let ib :=
    if flipped
    then addFaceIndices (indices bufs) (i + 3) (i + 2) (i + 1) (i + 0)
    else addFaceIndices (indices bufs) (i + 0) (i + 1) (i + 2) (i + 3) in
  mkBuffers ib vb.

(** The variables of the two nested geometry loops. *)
Record Geom := mkGeom {
  g_bufs : Buffers;
  g_index : Z;
  g_x : Q;
  g_y : Q
}.

(** The body of the loop over the columns: the four flaps of one cell. *)
Definition cell_body (vpc : nat) (g : Geom) : Geom :=
  let x := g_x g in
  let y := g_y g in
  let index := g_index g in
  let bufs := g_bufs g in
  let bufs := setupCharHalf x (y - 1) 0 0 index false false bufs in
  let bufs := setupCharHalf x y 1 (1 # 2) (index + 4) false false bufs in
  let bufs := setupCharHalf x y 0 (1 # 2) (index + 8) true false bufs in
  let bufs := setupCharHalf x y 1 (1 # 2) (index + 12) true true bufs in
  mkGeom bufs (index + Z.of_nat vpc) (x + (spacing + charWidth)) y.

(** The body of the loop over the rows. *)
Definition row_body (vpc ncols : nat) (offsetX : Q) (g : Geom) : Geom :=
  let g := mkGeom (g_bufs g) (g_index g) offsetX (g_y g) in
  let g := for_loop ncols (λ _, cell_body vpc) g in
  mkGeom (g_bufs g) (g_index g) (g_x g) (g_y g - (spacing + 2 * charHeight)).

(** Fill the char buffer with the "space" character. *)
Definition blank_charBuffer (b : Board) : list (option Q) :=
  let buf :=
    JsArray.new Q (2 * verticesPerChar b * cols b * rows b) in
  for_loop (length buf)
    (λ i buf, JsArray.set buf i (Some (inject_Z (blank b)))) buf.

(** The arrays [indexBuffer] and [vertexBuffer] of the caller are [bufs];
    [_buildBuffers] appends to them and resets the board's char buffer. *)
Definition _buildBuffers (b : Board) (bufs : Buffers) : Board * Buffers :=
  let b := set_charBuffer (blank_charBuffer b) b in
  let b := set_charBufferDirty false b in
  let offsetX : Q :=
    ((- inject_Z (Z.of_nat (cols b)) / 2) * (charWidth + spacing))%Q in
  let y : Q :=
    ((inject_Z (Z.of_nat (rows b)) / 2 - (1 # 2))
     * (2 * charHeight + spacing))%Q in
  (* [x] is assigned at the head of each row; [offsetX] starts as 0.1 *)
  let g := mkGeom bufs 0 (1 # 10) y in
  let g :=
    for_loop (rows b) (λ _, row_body (verticesPerChar b) (cols b) offsetX) g in
  (b, g_bufs g).

(** ** The constructor *)

(** [options.speed || 0.005] : a missing or zero speed is replaced. *)
Definition speed_or_default (s : option Q) : Q :=
  match s with
  | Some q => if Qeq_bool q 0 then (5 # 1000)%Q else q
  | None => (5 # 1000)%Q
  end.

Definition SolariBoard (gl : GL) (options : Options) : Board * GL :=
  let '(vertexBufferObj, gl) := gl_createBuffer gl in
  let '(indexBufferObj, gl) := gl_createBuffer gl in
  let '(charBufferObj, gl) := gl_createBuffer gl in
  let b :=
    mkBoard (opt_texture options) (opt_chars options) (opt_rows options)
      (opt_cols options) (speed_or_default (opt_speed options)) 0 16
      vertexBufferObj indexBufferObj charBufferObj [] false 0 in
  let '(b, bufs) := _buildBuffers b (mkBuffers [] []) in
  let b := set_numIndices (length (indices bufs)) b in
  let gl := gl ++ [bindBuffer ARRAY_BUFFER (charBufferObject b)] in
  let gl :=
    gl ++ [bufferData ARRAY_BUFFER (Float32Array (charBuffer b))
             DYNAMIC_DRAW] in
  let gl := gl ++ [bindBuffer ARRAY_BUFFER (vertexBuffer b)] in
  let gl :=
    gl ++ [bufferData ARRAY_BUFFER (Float32Array (map Some (vertices bufs)))
             STATIC_DRAW] in
  let gl := gl ++ [bindBuffer ELEMENT_ARRAY_BUFFER (indexBuffer b)] in
  let gl :=
    gl ++ [bufferData ELEMENT_ARRAY_BUFFER (Uint16Array (indices bufs))
             STATIC_DRAW] in
  (b, gl).

(** ** [setMessage] *)

(** [x < y] on numbers, as a test. *)
Definition Qlt_bool (x y : Q) : bool :=
  (Qnum x * QDen y <? Qnum y * QDen x)%Z.

(** [Math.floor(to) < Math.floor(from)]; the floor of [undefined] is [NaN]
    and every comparison with [NaN] is false. *)
Definition floor_lt (to : Q) (from : option Q) : bool :=
  match from with
  | Some f => (Qfloor to <? Qfloor f)%Z
  | None => false
  end.

(** The value stored as the new [from]:
    [(Math.floor(to) < Math.floor(from)) ? from - self.chars.length : from]. *)
Definition new_from (len : Z) (to : Q) (from : option Q) : option Q :=
  if floor_lt to from then (λ f, f - inject_Z len)%Q <$> from else from.

(** The variables [setMessage] and its closure [fillCharBuffer] share:
    the array (an alias of [this.charBuffer]), the write position, and the
    number of calls of [Math.random] made so far. *)
Record Fill := mkFill {
  buffer : list (option Q);
  bufIndex : nat;
  drawn : nat
}.

(** One turn of the loop of [fillCharBuffer], for vertex [i]. *)
Definition fill_vertex (len : Z) (to : Q) (bufIndex i : nat)
    (buffer : list (option Q)) : list (option Q) :=
  let from := JsArray.get buffer (bufIndex + 2 * i + 1) in
  let buffer := JsArray.set buffer (bufIndex + 2 * i) (new_from len to from) in
  JsArray.set buffer (bufIndex + 2 * i + 1) (Some to).

(** Repeat the from to character info for each vertex rendering that
    character. *)
Definition fillCharBuffer (b : Board) (to : Q) (st : Fill) : Fill :=
  let buffer :=
    for_loop (verticesPerChar b)
      (fill_vertex (glyphCount b) to (bufIndex st)) (buffer st) in
  mkFill buffer (bufIndex st + 2 * verticesPerChar b) (drawn st).

(** For each character find its index in our texture. *)
Definition glyph (b : Board) (msgRow : jsstring) (i : nat) : Z :=
  let char := blank b in
  if decide (i < length msgRow) then
    match msgRow !! i with
    | Some c =>
        let k := indexOf (chars b) c in
        if decide (k ≠ (-1)%Z) then k else char
    | None => char
    end
  else char.

(** [msg[j]], or the empty string when the message has no such line. *)
Definition line_or_empty (msg : list jsstring) (j : nat) : jsstring :=
  default [] (msg !! j).

(** The body of the loop over the columns. *)
Definition message_cell (b : Board) (random : nat → Q) (msgRow : jsstring)
    (i : nat) (st : Fill) : Fill :=
  let char := glyph b msgRow i in
  let r := random (drawn st) in
  let st := mkFill (buffer st) (bufIndex st) (S (drawn st)) in
  fillCharBuffer b (inject_Z char + r * (1 # 10))%Q st.

(** The body of the loop over the rows. *)
Definition message_row {strings : JsString} (b : Board) (random : nat → Q)
    (msg : list jsstring) (j : nat) (st : Fill) : Fill :=
  let msgRow := toUpperCase (line_or_empty msg j) in
  for_loop (cols b) (message_cell b random msgRow) st.

Definition setMessage {strings : JsString} (random : nat → Q)
    (msg : list jsstring) (b : Board) : Board :=
  let st := mkFill (charBuffer b) 0 0 in
  let st := for_loop (rows b) (message_row b random msg) st in
  set_charBufferDirty true (set_charBuffer (buffer st) b).

(** ** [update], [draw] and [bindShaderAttribs] *)

Definition update (time : Q) (b : Board) (gl : GL) : Board * GL :=
  let b :=
    if Qlt_bool (timing b) (inject_Z (glyphCount b))
    then set_timing (timing b + time * speed b)%Q b
    else b in
  if charBufferDirty b then
    let gl := gl ++ [bindBuffer ARRAY_BUFFER (charBufferObject b)] in
    let gl :=
      gl ++ [bufferSubData ARRAY_BUFFER 0 (Float32Array (charBuffer b))] in
    (set_charBufferDirty false b, gl)
  else (b, gl).

Definition draw (b : Board) (gl : GL) : GL :=
  gl ++ [drawElements (numIndices b)].

(** Point the shader attributes to the appropriate buffers.  [texture] is
    [None] when the caller leaves the argument out; [if (texture)] is false
    then, and for the attribute location 0 too. *)
Definition bindShaderAttribs (b : Board) (gl : GL)
    (character position : nat) (texture : option nat) : GL :=
  let gl := gl ++ [bindBuffer ELEMENT_ARRAY_BUFFER (indexBuffer b)] in
  let gl := gl ++ [bindBuffer ARRAY_BUFFER (charBufferObject b)] in
  let gl := gl ++ [enableVertexAttribArray character] in
  let gl := gl ++ [vertexAttribPointer character 2 8 0] in
  let gl := gl ++ [bindBuffer ARRAY_BUFFER (vertexBuffer b)] in
  let gl := gl ++ [enableVertexAttribArray position] in
  let gl := gl ++ [vertexAttribPointer position 3 20 0] in
  match texture with
  | Some texture =>
      if decide (texture = 0) then gl
      else
        let gl := gl ++ [enableVertexAttribArray texture] in
        gl ++ [vertexAttribPointer texture 2 20 12]
  | None => gl
  end.

(** ** Runs of a board *)

(** The calls a driver makes on a board once it is built. *)
Inductive Call :=
| CallSetMessage (random : nat → Q) (msg : list jsstring)
| CallUpdate (time : Q)
| CallDraw
| CallBind (character position : nat) (texture : option nat).

Definition call {strings : JsString} (c : Call) (s : Board * GL)
    : Board * GL :=
  match c with
  | CallSetMessage random msg => (setMessage random msg (fst s), snd s)
  | CallUpdate time => update time (fst s) (snd s)
  | CallDraw => (fst s, draw (fst s) (snd s))
  | CallBind c p t => (fst s, bindShaderAttribs (fst s) (snd s) c p t)
  end.

(** Build a board from [options] on a context [gl], then make the calls
    [cs] in order. *)
Definition run {strings : JsString} (gl : GL) (options : Options)
    (cs : list Call) : Board * GL :=
  foldl (λ s c, call c s) (SolariBoard gl options) cs.

(** The slots of vertex [v] of cell [c] in the character buffer. *)
Definition from_slot (b : Board) (c v : nat) : nat :=
  2 * verticesPerChar b * c + 2 * v.

Definition to_slot (b : Board) (c v : nat) : nat :=
  2 * verticesPerChar b * c + 2 * v + 1.

(** The glyph shown by a stored value: the floor of it. *)
Definition shown (x : option Q) : option Z := Qfloor <$> x.

(** The geometry [_buildBuffers] appends to two empty arrays, as the
    constructor calls it. *)
Definition geometry (b : Board) : Buffers :=
  snd (_buildBuffers b (mkBuffers [] [])).

(** ** Vocabulary of the properties *)

(** [update] called with each of the elapsed times [ts] in turn. *)
Definition updates (ts : list Q) (s : Board * GL) : Board * GL :=
  foldl (λ s t, update t (fst s) (snd s)) s ts.

(** [Math.random] draws from [0, 1). *)
Definition unit_interval (random : nat → Q) : Prop :=
  ∀ k, (0 <= random k)%Q ∧ (random k < 1)%Q.


(** The value [setMessage] passes to [fillCharBuffer] for cell [c]: the
    glyph index of the cell plus the jitter drawn for it. *)
Definition target {strings : JsString} (b : Board) (random : nat → Q)
    (msg : list jsstring) (c : nat) : Q :=
  (inject_Z
     (glyph b (toUpperCase (line_or_empty msg (c / cols b))) (c mod cols b))
   + random c * (1 # 10))%Q.

(** Every cell holds one pair of numbers, repeated for each of its
    vertices. *)
Definition cell_pairs (b : Board) : Prop :=
  ∀ c, c < rows b * cols b →
    ∃ from to : Q, ∀ v, v < verticesPerChar b →
      JsArray.get (charBuffer b) (from_slot b c v) = Some from ∧
      JsArray.get (charBuffer b) (to_slot b c v) = Some to.

(** What holds of every board reached from the constructor. *)
Definition built (b : Board) : Prop :=
  verticesPerChar b = 16 ∧ cell_pairs b.

(** *** Loop invariants *)

(** What the geometry loops have appended after [c] cells: 24 index
    entries and 16 vertices of 5 numbers for each cell. *)
Definition counted (bufs0 : Buffers) (c : nat) (g : Geom) : Prop :=
  length (indices (g_bufs g)) = length (indices bufs0) + 24 * c ∧
  length (vertices (g_bufs g)) = length (vertices bufs0) + 5 * (16 * c).

(** The index entries written for the first [c] cells stay below the number
    of vertices of these cells, when cells are numbered 16 apart. *)
Definition indexed (c : nat) (g : Geom) : Prop :=
  g_index g = Z.of_nat (16 * c) ∧
  Forall (λ e, 0 ≤ e < Z.of_nat (16 * c))%Z (indices (g_bufs g)).

(** The buffer before turn [i] of the loop of [fillCharBuffer] started at
    position [base] on the array [buf0]: the first [i] vertices are written,
    everything else is as it was. *)
Definition filled (len : Z) (to : Q) (base : nat) (buf0 : list (option Q))
    (i : nat) (buf : list (option Q)) : Prop :=
  (∀ k, k < base → JsArray.get buf k = JsArray.get buf0 k) ∧
  (∀ k, base + 2 * i ≤ k → JsArray.get buf k = JsArray.get buf0 k) ∧
  (∀ v, v < i →
     JsArray.get buf (base + 2 * v + 1) = Some to ∧
     JsArray.get buf (base + 2 * v) =
       new_from len to (JsArray.get buf0 (base + 2 * v + 1))).

(** The variables of [setMessage random msg] on board [b] after [c]
    cells. *)
Definition cells_done {strings : JsString} (b : Board) (random : nat → Q)
    (msg : list jsstring) (c : nat) (st : Fill) : Prop :=
  bufIndex st = 2 * verticesPerChar b * c ∧
  drawn st = c ∧
  (∀ k, 2 * verticesPerChar b * c ≤ k →
     JsArray.get (buffer st) k = JsArray.get (charBuffer b) k) ∧
  (∀ c' v, c' < c → v < verticesPerChar b →
     JsArray.get (buffer st) (to_slot b c' v) =
       Some (target b random msg c') ∧
     JsArray.get (buffer st) (from_slot b c' v) =
       new_from (glyphCount b) (target b random msg c')
         (JsArray.get (charBuffer b) (to_slot b c' v))).

(** ** Sample boards *)

Bind Scope string_scope with String.string.

(** The code units of a string of ASCII characters. *)
Definition utf16 (s : String.string) : jsstring :=
  N_of_ascii <$> String.list_ascii_of_string s.

(** A pair of case mappings to run the examples with.  They do what
    JavaScript does on the ASCII characters, on U+00DF (the sharp s, whose
    upper-case form is ["SS"]) and on U+212A (the Kelvin sign, whose
    lower-case form is ["k"] and which is its own upper-case form); the
    examples use no other character. *)
Definition sample_upper (c : N) : list N :=
  if (c =? 223)%N then [83; 83]%N else [ascii_upper c].

Definition sample_lower (c : N) : N :=
  if (c =? 8490)%N then 107%N else ascii_lower c.

Definition sample_strings : JsString :=
  {| toUpperCase s := s ≫= sample_upper;
     toLowerCase s := sample_lower <$> s |}.

(** The scenario of the specification: one row of three cells over the
    glyph set ["ABC "], the default speed. *)
Definition sample_options : Options := mkOptions 0 (utf16 "ABC ") 1 3 None.

Definition sample_board : Board := fst (SolariBoard [] sample_options).

(** A source of random numbers that always draws [r]. *)
Definition always (r : Q) : nat → Q := λ _, r.

(** A board showing ["C"] in its first cell, target [2.05]. *)
Definition shows_C : Board :=
  @setMessage sample_strings (always (1 # 2)) [utf16 "C"] sample_board.

(** The same board after a message with ["A"] in the first cell, with no
    jitter. *)
Definition shows_A : Board :=
  @setMessage sample_strings (always 0) [utf16 "A"] shows_C.

(** Closed facts about sample boards, by evaluation. *)
Ltac by_computation :=
  vm_compute; first [reflexivity | discriminate | (intros; discriminate)].

(** ** Vocabulary of the further properties *)

(** A call that draws random numbers draws them from [0, 1). *)
Definition jitter_ok (c : Call) : Prop :=
  match c with
  | CallSetMessage random _ => unit_interval random
  | _ => True
  end.

(** A natural number as a JavaScript number. *)
Definition Qnat (n : nat) : Q := inject_Z (Z.of_nat n).

(** What the call [c] at position [k] of a trace [tail], made on the device
    once board [b] is built, may be: no buffer is created and no buffer is
    given new storage; the only upload is the whole character buffer, at
    offset 0, right after the character buffer object is bound; a draw
    covers all the indices. *)
Definition steady_call (b : Board) (tail : list GLCall) (k : nat)
    (c : GLCall) : Prop :=
  match c with
  | createBuffer _ => False
  | bufferData _ _ _ => False
  | bufferSubData target offset data =>
      target = ARRAY_BUFFER ∧ offset = 0 ∧
      (∃ values, data = Float32Array values ∧
                 length values = 2 * 16 * cols b * rows b) ∧
      ∃ k', k = S k' ∧
            tail !! k' = Some (bindBuffer ARRAY_BUFFER (charBufferObject b))
  | drawElements count => count = 24 * rows b * cols b
  | _ => True
  end.

(** [g] is a valid index into the glyph set of [b]; over an empty glyph set
    the only index in use is [-1]. *)
Definition glyph_index (b : Board) (g : Z) : Prop :=
  (0 ≤ g < glyphCount b)%Z ∨ (glyphCount b = 0 ∧ g = -1)%Z.

(** Every vertex of every cell holds a [from] that shows a glyph at or
    before the glyph of its [to], less than one turn of the glyph set
    behind, and a [to] that shows a glyph of the set. *)
Definition forward (b : Board) : Prop :=
  ∀ c v, c < rows b * cols b → v < verticesPerChar b →
    ∃ from to : Q,
      JsArray.get (charBuffer b) (from_slot b c v) = Some from ∧
      JsArray.get (charBuffer b) (to_slot b c v) = Some to ∧
      glyph_index b (Qfloor to) ∧
      (Qfloor from ≤ Qfloor to)%Z ∧
      (Qfloor to - Qfloor from < Z.max 1 (glyphCount b))%Z.

(** *** The shape of the geometry *)

(** The 24 index entries of one cell, counted from its first vertex: two
    triangles for each of the four flaps, the last flap wound the other
    way. *)
Definition cell_indices : list Z :=
  [2; 3; 0; 2; 0; 1; 6; 7; 4; 6; 4; 5; 10; 11; 8; 10; 8; 9;
   13; 12; 15; 13; 15; 14]%Z.

(** The index entries of the first [ncells] cells, 16 vertices apart. *)
Definition grid_indices (ncells : nat) : list Z :=
  seq 0 ncells ≫= λ c, (λ e, Z.of_nat (16 * c) + e)%Z <$> cell_indices.

(** Vertex [k] of a cell is corner [k mod 4] of flap [k / 4]; the corners
    run bottom left, bottom right, top right, top left. *)
Definition corner_right (k : nat) : bool :=
  (k mod 4 =? 1) || (k mod 4 =? 2).

Definition corner_top (k : nat) : bool := 2 <=? k mod 4.

(** Where corner [k] of a flap called with [(x, y)] lies: a right corner
    is [charWidth] to the right, a top corner [charHeight] up.  The first
    flap of a cell, the bottom half, is called with [y - 1]. *)
Definition corner_x (x : Q) (k : nat) : Q :=
  if corner_right k then (x + charWidth)%Q else x.

Definition corner_y (y : Q) (k : nat) : Q :=
  let y := if k / 4 =? 0 then (y - 1)%Q else y in
  if corner_top k then (y + charHeight)%Q else y.

(** The animation marker: 1 on the two top corners of the last two flaps. *)
Definition vertex_z (k : nat) : Q :=
  if (2 <=? k / 4) && corner_top k then 1 else 0.

(** The texture coordinates of vertex [k]. *)
Definition vertex_u (k : nat) : Q :=
  (if Nat.odd (k / 4) then 1 else 0) + (if corner_right k then 1 else 0).

Definition vertex_v (k : nat) : Q :=
  (if k / 4 =? 0 then 0 else 1 # 2)
  + (if corner_top k then (if k / 4 =? 3 then - (1 # 2) else 1 # 2) else 0).

(** The [x] the loops hold in column [i] of [ncols], and the [y] they hold
    in row [j] of [nrows]: the start value, stepped once for each column or
    row passed, by the operations of the source in their order. *)
Definition column_x (ncols i : nat) : Q :=
  Nat.iter i (λ x, x + (spacing + charWidth))%Q
    (- Qnat ncols / 2 * (charWidth + spacing))%Q.

Definition row_y (nrows j : nat) : Q :=
  Nat.iter j (λ y, y - (spacing + 2 * charHeight))%Q
    ((Qnat nrows / 2 - (1 # 2)) * (2 * charHeight + spacing))%Q.

(** The five numbers of vertex [k] of cell [c] in the vertex array [vs] of
    a grid of [nrows] by [ncols] cells. *)
Definition vertex_at (nrows ncols : nat) (vs : list Q) (c k : nat) : Prop :=
  ∃ px py z u v : Q,
    vs !! (5 * (16 * c + k)) = Some px ∧
    vs !! (5 * (16 * c + k) + 1) = Some py ∧
    vs !! (5 * (16 * c + k) + 2) = Some z ∧
    vs !! (5 * (16 * c + k) + 3) = Some u ∧
    vs !! (5 * (16 * c + k) + 4) = Some v ∧
    px = corner_x (column_x ncols (c mod ncols)) k ∧
    py = corner_y (row_y nrows (c / ncols)) k ∧
    z = vertex_z k ∧
    (u == vertex_u k)%Q ∧
    (v == vertex_v k)%Q.

(** The geometry loops after [c] cells, as to the index list. *)
Definition listed (c : nat) (g : Geom) : Prop :=
  g_index g = Z.of_nat (16 * c) ∧ indices (g_bufs g) = grid_indices c.

(** The geometry loops after [c] cells, as to the vertex list. *)
Definition placed (nrows ncols c : nat) (g : Geom) : Prop :=
  length (vertices (g_bufs g)) = 5 * (16 * c) ∧
  ∀ c' k, c' < c → k < 16 →
    vertex_at nrows ncols (vertices (g_bufs g)) c' k.

(** Take the trace [chunk] of [Hk : chunk !! k = Some x] call by call. *)
Ltac chunk_cases Hk k :=
  destruct k as [|k];
  [ cbn in Hk; injection Hk as <-; cbn
  | cbn in Hk; first [discriminate Hk | chunk_cases Hk k] ].

(** Evaluate the tables of the vertices at the vertex at hand. *)
Ltac table_values :=
  repeat match goal with
    | |- context [vertex_u ?k] =>
        let t := eval vm_compute in (vertex_u k) in
        change (vertex_u k) with t
    | |- context [vertex_v ?k] =>
        let t := eval vm_compute in (vertex_v k) in
        change (vertex_v k) with t
    end.

(** * Properties *)

Section Properties.
Context {strings : JsString}.

(** ** Loops *)

Section ForLoop.
Context {St : Type}.
Implicit Types (body : nat → St → St) (s : St).

Lemma for_loop_0 body s : for_loop 0 body s = s.
Proof. reflexivity. Qed.

Lemma for_loop_S n body s :
  for_loop (S n) body s = body n (for_loop n body s).
Proof. unfold for_loop. rewrite seq_S, foldl_app. reflexivity. Qed.

(** Invariant rule: [P i] holds of the variables before turn [i]. *)
Lemma for_loop_ind (P : nat → St → Prop) n body s :
  P 0 s →
  (∀ i s', i < n → P i s' → P (S i) (body i s')) →
  P n (for_loop n body s).
Proof.
  intros H0 Hstep. induction n as [|n IH].
  - exact H0.
  - rewrite for_loop_S. apply Hstep; [lia|]. apply IH.
    intros i s' Hi. apply Hstep. lia.
Qed.

End ForLoop.

(** ** JavaScript arrays *)

Section JsArrayFacts.
Context {A : Type}.
Implicit Types (a : list (option A)) (v : option A).

Lemma get_ge a i : length a ≤ i → JsArray.get a i = None.
Proof. intros H. unfold JsArray.get. by rewrite lookup_ge_None_2. Qed.

Lemma length_set a i v :
  length (JsArray.set a i v) = max (length a) (S i).
Proof.
  unfold JsArray.set. case_decide.
  - rewrite length_insert. lia.
  - rewrite !length_app, length_replicate. simpl. lia.
Qed.

Lemma get_set_eq a i v : JsArray.get (JsArray.set a i v) i = v.
Proof.
  unfold JsArray.get, JsArray.set. case_decide.
  - by rewrite list_lookup_insert_eq.
  - rewrite lookup_app_r by lia.
    rewrite lookup_app_r by (rewrite length_replicate; lia).
    rewrite length_replicate, Nat.sub_diag. reflexivity.
Qed.

Lemma get_set_ne a i j v :
  i ≠ j → JsArray.get (JsArray.set a i v) j = JsArray.get a j.
Proof.
  intros Hne. unfold JsArray.get, JsArray.set. case_decide.
  - by rewrite list_lookup_insert_ne.
  - destruct (decide (j < length a)) as [Hj|Hj].
    + by rewrite lookup_app_l.
    + rewrite lookup_app_r by lia.
      rewrite (lookup_ge_None_2 a j) by lia.
      destruct (decide (j - length a < i - length a)) as [Hlt|Hge].
      * rewrite lookup_app_l by (rewrite length_replicate; lia).
        by rewrite lookup_replicate_2.
      * rewrite lookup_app_r by (rewrite length_replicate; lia).
        rewrite length_replicate.
        rewrite lookup_ge_None_2; [done|]. simpl. lia.
Qed.
End JsArrayFacts.

(** ** The geometry builder *)

Lemma indices_setupCharHalf x y u v i animated flipped bufs :
  indices (setupCharHalf x y u v i animated flipped bufs) =
  indices bufs ++
    (if flipped
     then [i + 1; i + 0; i + 3; i + 1; i + 3; i + 2]
     else [i + 2; i + 3; i + 0; i + 2; i + 0; i + 1])%Z.
Proof. unfold setupCharHalf, addFaceIndices. by destruct flipped. Qed.

Lemma length_vertices_setupCharHalf x y u v i animated flipped bufs :
  length (vertices (setupCharHalf x y u v i animated flipped bufs)) =
  length (vertices bufs) + 20.
Proof.
  unfold setupCharHalf, extend. cbn [vertices].
  rewrite !length_app. simpl. lia.
Qed.

Lemma cell_body_counted vpc bufs0 c g :
  counted bufs0 c g → counted bufs0 (S c) (cell_body vpc g).
Proof.
  intros [Hi Hv]. unfold counted, cell_body. cbn [g_bufs]. split.
  - rewrite !indices_setupCharHalf, !length_app, Hi. simpl. lia.
  - rewrite !length_vertices_setupCharHalf, Hv. lia.
Qed.

Lemma cell_body_indexed c g :
  indexed c g → indexed (S c) (cell_body 16 g).
Proof.
  intros [Hx Hall]. unfold indexed, cell_body. cbn [g_bufs g_index]. split.
  - rewrite Hx. lia.
  - rewrite !indices_setupCharHalf, !Forall_app. rewrite Hx.
    repeat split.
    + eapply Forall_impl; [exact Hall|]. simpl. intros e He. lia.
    + repeat constructor; lia.
    + repeat constructor; lia.
    + repeat constructor; lia.
    + repeat constructor; lia.
Qed.

Section GeometryLoops.
Variables (vpc ncols : nat) (offsetX : Q).

(** An invariant of the cell body, stated on the number of cells done,
    is carried through a row and through the rows. *)
Variable P : nat → Geom → Prop.
Hypothesis P_cell : ∀ c g, P c g → P (S c) (cell_body vpc g).
Hypothesis P_frame :
  ∀ c g x y, P c g → P c (mkGeom (g_bufs g) (g_index g) x y).

Lemma row_body_inv j g :
  P (j * ncols) g → P (S j * ncols) (row_body vpc ncols offsetX g).
Proof using P_cell P_frame.
  intros Hg. unfold row_body. apply P_frame.
  replace (S j * ncols) with (j * ncols + ncols) by lia.
  apply (for_loop_ind (λ i g', P (j * ncols + i) g')).
  - rewrite Nat.add_0_r. by apply P_frame.
  - intros i g' _ Hg'. rewrite Nat.add_succ_r. by apply P_cell.
Qed.

Lemma rows_inv nrows g :
  P 0 g →
  P (nrows * ncols)
    (for_loop nrows (λ _, row_body vpc ncols offsetX) g).
Proof using P_cell P_frame.
  intros Hg.
  apply (for_loop_ind (λ j g', P (j * ncols) g')); [exact Hg|].
  intros j g' _. apply row_body_inv.
Qed.
End GeometryLoops.

Lemma blank_charBuffer_replicate b :
  blank_charBuffer b =
  replicate (2 * verticesPerChar b * cols b * rows b)
    (Some (inject_Z (blank b))).
Proof.
  unfold blank_charBuffer, JsArray.new. rewrite length_replicate.
  generalize (2 * verticesPerChar b * cols b * rows b) as n. intros n.
  set (x := Some (inject_Z (blank b))).
  enough (H : ∀ k, k ≤ n →
    for_loop k (λ i buf, JsArray.set buf i x) (replicate n None) =
    replicate k x ++ replicate (n - k) None).
  { rewrite H by lia. rewrite Nat.sub_diag. simpl. by rewrite app_nil_r. }
  induction k as [|k IH]; intros Hk.
  - simpl. by rewrite Nat.sub_0_r.
  - rewrite for_loop_S, IH by lia. unfold JsArray.set.
    rewrite decide_True
      by (rewrite length_app, !length_replicate; lia).
    replace (n - k) with (S (n - S k)) by lia. simpl.
    rewrite insert_app_r_alt by (rewrite length_replicate; lia).
    rewrite length_replicate, Nat.sub_diag. simpl.
    rewrite cons_middle, app_assoc, <- replicate_S_end. reflexivity.
Qed.

Lemma geometry_counted b bufs :
  counted bufs (rows b * cols b)
    (mkGeom (snd (_buildBuffers b bufs)) 0 0 0).
Proof.
  unfold _buildBuffers. cbn [snd].
  match goal with
  | |- counted _ _ (mkGeom (g_bufs ?g) _ _ _) =>
      enough (H : counted bufs (rows b * cols b) g) by exact H
  end.
  apply rows_inv.
  - intros c g. apply cell_body_counted.
  - intros c g x y H. exact H.
  - unfold counted. cbn. lia.
Qed.

Lemma geometry_indexed b :
  verticesPerChar b = 16 →
  Forall (λ e, 0 ≤ e < Z.of_nat (16 * (rows b * cols b)))%Z
    (indices (geometry b)).
Proof.
  intros Hvpc. unfold geometry, _buildBuffers. cbn [snd].
  match goal with
  | |- Forall _ (indices (g_bufs ?g)) =>
      enough (H : indexed (rows b * cols b) g) by apply H
  end.
  cbn [verticesPerChar rows cols set_charBuffer set_charBufferDirty].
  rewrite Hvpc. apply rows_inv.
  - intros c g. apply cell_body_indexed.
  - intros c g x y H. exact H.
  - split; [reflexivity | constructor].
Qed.

(** The constructor hands the built geometry to the device and keeps its
    index count. *)
Lemma SolariBoard_built gl options :
  let b := fst (SolariBoard gl options) in
  rows b = opt_rows options ∧ cols b = opt_cols options ∧
  chars b = opt_chars options ∧
  verticesPerChar b = 16 ∧
  timing b = 0%Q ∧
  speed b = speed_or_default (opt_speed options) ∧
  charBufferDirty b = false ∧
  charBuffer b =
    replicate (2 * 16 * opt_cols options * opt_rows options)
      (Some (inject_Z (blank b))) ∧
  numIndices b = length (indices (geometry b)) ∧
  snd (SolariBoard gl options) =
    gl ++ [createBuffer (length gl); createBuffer (S (length gl));
           createBuffer (S (S (length gl)));
           bindBuffer ARRAY_BUFFER (charBufferObject b);
           bufferData ARRAY_BUFFER (Float32Array (charBuffer b)) DYNAMIC_DRAW;
           bindBuffer ARRAY_BUFFER (vertexBuffer b);
           bufferData ARRAY_BUFFER
             (Float32Array (map Some (vertices (geometry b)))) STATIC_DRAW;
           bindBuffer ELEMENT_ARRAY_BUFFER (indexBuffer b);
           bufferData ELEMENT_ARRAY_BUFFER (Uint16Array (indices (geometry b)))
             STATIC_DRAW].
Proof.
  unfold SolariBoard, gl_createBuffer, geometry, _buildBuffers.
  cbn [fst snd rows cols chars verticesPerChar timing speed charBufferDirty
       charBuffer numIndices charBufferObject vertexBuffer indexBuffer
       set_charBuffer set_charBufferDirty set_numIndices].
  repeat split.
  - rewrite blank_charBuffer_replicate. reflexivity.
  - rewrite !length_app. cbn [length]. rewrite <- !app_assoc. cbn [app].
    repeat f_equal; lia.
Qed.

(** ** [fillCharBuffer] and [setMessage] *)

Section FillVertices.
Variables (len : Z) (to : Q) (base : nat) (buf0 : list (option Q)).

Lemma fill_vertex_filled i buf :
  filled len to base buf0 i buf →
  filled len to base buf0 (S i) (fill_vertex len to base i buf).
Proof.
  intros (Hlow & Hhigh & Hdone). unfold fill_vertex.
  repeat split.
  - intros k Hk. rewrite !get_set_ne by lia. by apply Hlow.
  - intros k Hk. rewrite !get_set_ne by lia. apply Hhigh. lia.
  - destruct (decide (v = i)) as [->|Hne].
    + apply get_set_eq.
    + rewrite !get_set_ne by lia. apply Hdone. lia.
  - destruct (decide (v = i)) as [->|Hne].
    + rewrite get_set_ne by lia. rewrite get_set_eq.
      f_equal. apply Hhigh. lia.
    + rewrite !get_set_ne by lia. apply Hdone. lia.
Qed.

Lemma fill_loop_filled n :
  filled len to base buf0 n (for_loop n (fill_vertex len to base) buf0).
Proof.
  apply (for_loop_ind (filled len to base buf0)).
  - repeat split; intros; lia.
  - intros i buf _. apply fill_vertex_filled.
Qed.
End FillVertices.

(** Two nested counting loops visit the cells in row-major order. *)
Lemma nested_loop_ind {St : Type} (P : nat → St → Prop) nrows ncols
    (body : nat → nat → St → St) (s : St) :
  P 0 s →
  (∀ j i s', j < nrows → i < ncols →
     P (j * ncols + i) s' → P (S (j * ncols + i)) (body j i s')) →
  P (nrows * ncols) (for_loop nrows (λ j, for_loop ncols (body j)) s).
Proof.
  intros H0 Hstep.
  apply (for_loop_ind (λ j s', P (j * ncols) s')); [exact H0|].
  intros j s' Hj Hs'.
  replace (S j * ncols) with (j * ncols + ncols) by lia.
  apply (for_loop_ind (λ i s'', P (j * ncols + i) s'')).
  - by rewrite Nat.add_0_r.
  - intros i s'' Hi Hs''. rewrite Nat.add_succ_r. by apply Hstep.
Qed.

Lemma cell_row j i ncols : i < ncols → (j * ncols + i) / ncols = j.
Proof.
  intros Hi. symmetry. apply (Nat.div_unique _ _ _ i); lia.
Qed.

Lemma cell_col j i ncols : i < ncols → (j * ncols + i) mod ncols = i.
Proof.
  intros Hi. symmetry. apply (Nat.mod_unique _ _ j); lia.
Qed.

Lemma cell_lt j i nrows ncols :
  j < nrows → i < ncols → j * ncols + i < nrows * ncols.
Proof. intros Hj Hi. nia. Qed.

Section SetMessage.
Variables (b : Board) (random : nat → Q) (msg : list jsstring).

Lemma message_cell_done j i st :
  i < cols b →
  cells_done b random msg (j * cols b + i) st →
  cells_done b random msg (S (j * cols b + i))
    (message_cell b random (toUpperCase (line_or_empty msg j)) i st).
Proof.
  intros Hi (Hidx & Hdrawn & Hrest & Hdone).
  set (c := j * cols b + i) in *.
  unfold message_cell, fillCharBuffer. cbn [buffer bufIndex drawn].
  rewrite Hidx, Hdrawn.
  assert (Hto : (inject_Z
            (glyph b (toUpperCase (line_or_empty msg j)) i)
          + random c * (1 # 10))%Q = target b random msg c).
  { unfold target, c. by rewrite cell_row, cell_col. }
  rewrite Hto. clearbody c.
  destruct (fill_loop_filled (glyphCount b) (target b random msg c)
              (2 * verticesPerChar b * c) (buffer st) (verticesPerChar b))
    as (Hlow & Hhigh & Hnew).
  unfold cells_done. cbn [buffer bufIndex drawn]. repeat split.
  - lia.
  - intros k Hk. rewrite Hhigh by lia. apply Hrest. lia.
  - destruct (decide (c' = c)) as [->|Hne].
    + unfold to_slot. by apply Hnew.
    + rewrite Hlow by (unfold to_slot; nia). apply Hdone; [lia|done].
  - destruct (decide (c' = c)) as [->|Hne].
    + unfold from_slot, to_slot.
      destruct (Hnew v) as [_ ->]; [done|].
      f_equal. apply Hrest. lia.
    + rewrite Hlow by (unfold from_slot; nia). apply Hdone; [lia|done].
Qed.

Lemma setMessage_done :
  cells_done b random msg (rows b * cols b)
    (for_loop (rows b) (message_row b random msg)
       (mkFill (charBuffer b) 0 0)).
Proof.
  unfold message_row.
  apply (nested_loop_ind (cells_done b random msg) (rows b) (cols b)
           (λ j, message_cell b random (toUpperCase (line_or_empty msg j)))).
  - repeat split; cbn; intros; lia.
  - intros j i st _ Hi. by apply message_cell_done.
Qed.

(** The slots of every cell after [setMessage]. *)
Lemma setMessage_slots c v :
  c < rows b * cols b → v < verticesPerChar b →
  JsArray.get (charBuffer (setMessage random msg b)) (to_slot b c v) =
    Some (target b random msg c) ∧
  JsArray.get (charBuffer (setMessage random msg b)) (from_slot b c v) =
    new_from (glyphCount b) (target b random msg c)
      (JsArray.get (charBuffer b) (to_slot b c v)).
Proof.
  intros Hc Hv. destruct setMessage_done as (_ & _ & _ & Hdone).
  by apply Hdone.
Qed.

(** [setMessage] changes the char buffer and the dirty flag only. *)
Lemma setMessage_fields :
  let b' := setMessage random msg b in
  chars b' = chars b ∧ rows b' = rows b ∧ cols b' = cols b ∧
  verticesPerChar b' = verticesPerChar b ∧ timing b' = timing b ∧
  speed b' = speed b ∧ charBufferDirty b' = true.
Proof. repeat split. Qed.
End SetMessage.

(** ** Numbers *)

Lemma Qlt_bool_iff x y : Qlt_bool x y = true ↔ (x < y)%Q.
Proof. unfold Qlt_bool, Qlt. apply Z.ltb_lt. Qed.

Lemma Qfloor_unique (x : Q) (z : Z) :
  (inject_Z z <= x)%Q → (x < inject_Z (z + 1))%Q → Qfloor x = z.
Proof.
  intros Hle Hlt.
  assert (H1 : (z <= Qfloor x)%Z).
  { rewrite <- (Qfloor_Z z). by apply Qfloor_resp_le. }
  assert (H2 : (Qfloor x < z + 1)%Z).
  { rewrite Zlt_Qlt. eapply Qle_lt_trans; [apply Qfloor_le | exact Hlt]. }
  lia.
Qed.

(** The jitter [Math.random() * 0.1] does not change the glyph shown. *)
Lemma Qfloor_jitter (g : Z) (r : Q) :
  (0 <= r)%Q → (r < 1)%Q → Qfloor (inject_Z g + r * (1 # 10)) = g.
Proof.
  intros H0 H1. apply Qfloor_unique.
  - lra.
  - rewrite inject_Z_plus. change (inject_Z 1) with 1%Q. lra.
Qed.

Lemma Qfloor_minus_Z (x : Q) (n : Z) :
  Qfloor (x - inject_Z n) = (Qfloor x - n)%Z.
Proof.
  apply Qfloor_unique.
  - unfold Z.sub. rewrite inject_Z_plus, inject_Z_opp.
    pose proof (Qfloor_le x). lra.
  - replace (Qfloor x - n + 1)%Z with ((Qfloor x + 1) + - n)%Z by lia.
    rewrite inject_Z_plus, inject_Z_opp.
    pose proof (Qlt_floor x). lra.
Qed.

(** ** Strings and glyphs *)














Lemma indexOf_from_found arr c pos :
  c ∈ arr →
  (pos ≤ indexOf_from arr c pos < pos + Z.of_nat (length arr))%Z ∧
  arr !! Z.to_nat (indexOf_from arr c pos - pos) = Some c.
Proof.
  revert pos. induction arr as [|x arr IH]; intros pos Hc.
  - by apply elem_of_nil in Hc.
  - simpl. destruct (N.eq_dec x c) as [->|Hne].
    + rewrite Z.sub_diag. split; [lia | reflexivity].
    + apply elem_of_cons in Hc as [->|Hc]; [done|].
      destruct (IH (pos + 1)%Z Hc) as [Hrange Hlook]. split; [lia|].
      replace (Z.to_nat (indexOf_from arr c (pos + 1) - pos))
        with (S (Z.to_nat (indexOf_from arr c (pos + 1) - (pos + 1))))
        by lia.
      exact Hlook.
Qed.



(** A character of the glyph set shows at its first position there. *)
Lemma glyph_present b msgRow i c :
  msgRow !! i = Some c → c ∈ chars b →
  glyph b msgRow i = indexOf (chars b) c ∧
  (0 ≤ glyph b msgRow i < glyphCount b)%Z ∧
  chars b !! Z.to_nat (glyph b msgRow i) = Some c.
Proof.
  intros Hi Hc. unfold glyph, indexOf, glyphCount.
  rewrite decide_True by (by eapply lookup_lt_Some). rewrite Hi.
  destruct (indexOf_from_found (chars b) c 0 Hc) as [Hrange Hlook].
  rewrite Z.sub_0_r in Hlook.
  rewrite decide_True by lia. split; [done|]. split; [lia|done].
Qed.


(** ** Boards reached from the constructor *)

Lemma get_replicate {A} n (x : option A) i :
  i < n → JsArray.get (replicate n x) i = x.
Proof. intros Hi. unfold JsArray.get. by rewrite lookup_replicate_2. Qed.

Lemma built_SolariBoard gl options : built (fst (SolariBoard gl options)).
Proof.
  destruct (SolariBoard_built gl options)
    as (Hrows & Hcols & _ & Hvpc & _ & _ & _ & Hbuf & _).
  split; [exact Hvpc|]. intros c Hc.
  exists (inject_Z (blank (fst (SolariBoard gl options)))),
    (inject_Z (blank (fst (SolariBoard gl options)))).
  intros v Hv. rewrite Hbuf. unfold from_slot, to_slot.
  rewrite Hvpc in *. rewrite Hrows, Hcols in Hc.
  split; apply get_replicate; nia.
Qed.

Lemma new_from_Some len to prev :
  new_from len to (Some prev) =
  Some (if (Qfloor to <? Qfloor prev)%Z then prev - inject_Z len else prev)%Q.
Proof. unfold new_from, floor_lt. by destruct (_ <? _)%Z. Qed.

Lemma cell_pairs_setMessage random msg b :
  cell_pairs b → cell_pairs (setMessage random msg b).
Proof.
  intros Hb c Hc. destruct (Hb c Hc) as (from & to & Hpair).
  eexists _, (target b random msg c). intros v Hv.
  destruct (setMessage_slots b random msg c v Hc Hv) as [Hto Hfrom].
  destruct (Hpair v Hv) as [_ Hprev].
  rewrite Hprev, new_from_Some in Hfrom.
  split; [exact Hfrom | exact Hto].
Qed.

Lemma update_fields time b gl :
  let b' := fst (update time b gl) in
  chars b' = chars b ∧ rows b' = rows b ∧ cols b' = cols b ∧
  verticesPerChar b' = verticesPerChar b ∧ speed b' = speed b ∧
  charBuffer b' = charBuffer b.
Proof.
  unfold update.
  destruct (Qlt_bool _ _); cbn [charBufferDirty set_timing];
    destruct (charBufferDirty b); repeat split.
Qed.

Lemma built_call c s : built (fst s) → built (fst (call c s)).
Proof.
  intros [Hvpc Hpairs].
  destruct c as [random msg|time| |ch p t]; cbn [call fst].
  - split; [exact Hvpc|]. by apply cell_pairs_setMessage.
  - destruct (update_fields time (fst s) (snd s))
      as (_ & Hrows & Hcols & Hv & _ & Hbuf).
    split; [by rewrite Hv|].
    unfold cell_pairs, from_slot, to_slot.
    rewrite Hrows, Hcols, Hv, Hbuf. exact Hpairs.
  - by split.
  - by split.
Qed.

Lemma built_run gl options cs : built (fst (run gl options cs)).
Proof.
  unfold run. induction cs as [|c cs IH] using rev_ind.
  - apply built_SolariBoard.
  - rewrite foldl_app. cbn [foldl]. by apply built_call.
Qed.

(** ** The timing value *)

Lemma updates_app ts1 ts2 s :
  updates (ts1 ++ ts2) s = updates ts2 (updates ts1 s).
Proof. apply foldl_app. Qed.

Lemma timing_update time b gl :
  timing (fst (update time b gl)) =
  if Qlt_bool (timing b) (inject_Z (glyphCount b))
  then (timing b + time * speed b)%Q else timing b.
Proof.
  unfold update.
  destruct (Qlt_bool _ _); cbn [charBufferDirty set_timing];
    destruct (charBufferDirty b); reflexivity.
Qed.

Lemma updates_fields ts s :
  chars (fst (updates ts s)) = chars (fst s) ∧
  speed (fst (updates ts s)) = speed (fst s).
Proof.
  induction ts as [|t ts IH] using rev_ind; [done|].
  rewrite updates_app. cbn [updates foldl].
  destruct (update_fields t (fst (updates ts s)) (snd (updates ts s)))
    as (Hc & _ & _ & _ & Hs & _).
  rewrite Hc, Hs. exact IH.
Qed.

Lemma unit_interval_always r :
  (0 <= r)%Q → (r < 1)%Q → unit_interval (always r).
Proof. intros H0 H1 k. by split. Defined.

Lemma timing_update_step time step b gl :
  (0 <= speed b)%Q → (0 <= time)%Q → (time * speed b <= step)%Q →
  (timing b <= inject_Z (glyphCount b) + step)%Q →
  let b' := fst (update time b gl) in
  (timing b <= timing b')%Q ∧
  (timing b' <= inject_Z (glyphCount b) + step)%Q ∧
  ((inject_Z (glyphCount b) <= timing b)%Q → timing b' = timing b).
Proof.
  intros Hs Ht Hstep Hb. cbn zeta. rewrite timing_update.
  destruct (Qlt_bool _ _) eqn:Hlt.
  - apply Qlt_bool_iff in Hlt.
    assert (0 <= time * speed b)%Q by (by apply Qmult_le_0_compat).
    repeat split; [lra | lra | intros; lra].
  - repeat split; [lra | lra].
Qed.

Lemma timing_updates ts step s :
  (0 <= speed (fst s))%Q →
  Forall (λ t, 0 <= t ∧ t * speed (fst s) <= step)%Q ts →
  (timing (fst s) <= inject_Z (glyphCount (fst s)) + step)%Q →
  (timing (fst s) <= timing (fst (updates ts s)))%Q ∧
  (timing (fst (updates ts s)) <= inject_Z (glyphCount (fst s)) + step)%Q ∧
  ((inject_Z (glyphCount (fst s)) <= timing (fst s))%Q →
   timing (fst (updates ts s)) = timing (fst s)).
Proof.
  intros Hs Hts Hb. induction ts as [|t ts IH] using rev_ind.
  - unfold updates. cbn [foldl]. repeat split; [lra | exact Hb].
  - apply Forall_app in Hts as [Hts Ht].
    apply Forall_singleton in Ht as [Ht0 Ht1].
    destruct (IH Hts) as (IH1 & IH2 & IH3).
    rewrite updates_app. cbn [updates foldl]. fold (updates ts s).
    destruct (updates_fields ts s) as [Hchars Hspeed].
    assert (Hlen : glyphCount (fst (updates ts s)) = glyphCount (fst s))
      by (unfold glyphCount; by rewrite Hchars).
    destruct (timing_update_step t step (fst (updates ts s))
                (snd (updates ts s))) as (S1 & S2 & S3);
      rewrite ?Hspeed, ?Hlen; try done.
    rewrite Hlen in S2, S3. repeat split.
    + lra.
    + exact S2.
    + intros Hge. rewrite S3 by (rewrite IH3 by done; done). by apply IH3.
Qed.

(** The glyph a cell shows after [setMessage]. *)
Lemma setMessage_shown b random msg c v :
  unit_interval random →
  c < rows b * cols b → v < verticesPerChar b →
  shown (JsArray.get (charBuffer (setMessage random msg b)) (to_slot b c v)) =
  Some (glyph b (toUpperCase (line_or_empty msg (c / cols b))) (c mod cols b)).
Proof.
  intros Hr Hc Hv.
  destruct (setMessage_slots b random msg c v Hc Hv) as [-> _].
  unfold shown, target. cbn [fmap option_fmap option_map]. f_equal.
  destruct (Hr c). by apply Qfloor_jitter.
Qed.



(** ** The length of the character buffer *)

Lemma length_fill_loop len to base n buf :
  base + 2 * n ≤ length buf →
  length (for_loop n (fill_vertex len to base) buf) = length buf.
Proof.
  intros Hfit.
  apply (for_loop_ind (λ _ buf', length buf' = length buf)); [done|].
  intros i buf' Hi Hlen. unfold fill_vertex.
  rewrite !length_set, Hlen. lia.
Qed.

(** On a buffer that has room for the grid, [setMessage] writes inside the
    array: its length stays as it is. *)
Lemma length_setMessage random msg b :
  2 * verticesPerChar b * (rows b * cols b) ≤ length (charBuffer b) →
  length (charBuffer (setMessage random msg b)) = length (charBuffer b).
Proof.
  intros Hfit. unfold setMessage, message_row. cbn [charBuffer set_charBuffer
    set_charBufferDirty].
  enough (H : bufIndex
                (for_loop (rows b)
                   (λ j, for_loop (cols b)
                      (message_cell b random
                         (toUpperCase (line_or_empty msg j))))
                   (mkFill (charBuffer b) 0 0))
              = 2 * verticesPerChar b * (rows b * cols b) ∧
              length
                (buffer
                   (for_loop (rows b)
                      (λ j, for_loop (cols b)
                         (message_cell b random
                            (toUpperCase (line_or_empty msg j))))
                      (mkFill (charBuffer b) 0 0)))
              = length (charBuffer b)) by apply H.
  apply (nested_loop_ind
           (λ c st, bufIndex st = 2 * verticesPerChar b * c ∧
                    length (buffer st) = length (charBuffer b))
           (rows b) (cols b)
           (λ j, message_cell b random (toUpperCase (line_or_empty msg j)))).
  - cbn. lia.
  - intros j i st Hj Hi [Hidx Hlen].
    pose proof (cell_lt j i (rows b) (cols b) Hj Hi) as Hc.
    unfold message_cell, fillCharBuffer. cbn [buffer bufIndex drawn].
    split; [lia|]. rewrite length_fill_loop; [done|]. nia.
Qed.

(** Every board reached from the constructor keeps a character buffer of
    [2 * verticesPerChar * cols * rows] numbers. *)
Lemma length_charBuffer_run gl options cs :
  let b := fst (run gl options cs) in
  verticesPerChar b = 16 ∧
  length (charBuffer b) = 2 * 16 * cols b * rows b.
Proof.
  unfold run. induction cs as [|c cs IH] using rev_ind; cbn zeta.
  - destruct (SolariBoard_built gl options)
      as (Hrows & Hcols & _ & Hvpc & _ & _ & _ & Hbuf & _).
    split; [exact Hvpc|]. cbn [foldl].
    by rewrite Hbuf, length_replicate, Hrows, Hcols.
  - rewrite foldl_app. cbn [foldl]. cbn zeta in IH.
    destruct IH as [Hvpc Hlen].
    set (s := foldl (λ s c, call c s) (SolariBoard gl options) cs) in *.
    destruct c as [random msg|time| |ch p t]; cbn [call fst].
    + split; [exact Hvpc|].
      rewrite length_setMessage by (rewrite Hvpc, Hlen; lia).
      exact Hlen.
    + destruct (update_fields time (fst s) (snd s))
        as (_ & Hrows & Hcols & Hv & _ & Hbuf).
      by rewrite Hv, Hbuf, Hrows, Hcols.
    + by split.
    + by split.
Qed.

(** ** The claims *)

(** C1, as amended.  On a board of non-negative speed, along any sequence of
    [update] calls with non-negative elapsed times, the timing value never
    decreases; it stops changing once it has reached the glyph-set length;
    and it stays at or below the glyph-set length plus [step], for any bound
    [step] on the increments [elapsedTime * speed]: the last increment made
    below the glyph-set length can carry it past that length. *)
Theorem timing_monotone_overshoot_bounded
    (b : Board) (gl : GL) (ts1 ts2 : list Q) (step : Q) :
  (0 <= speed b)%Q →
  Forall (λ t, 0 <= t ∧ t * speed b <= step)%Q (ts1 ++ ts2) →
  (timing b <= inject_Z (glyphCount b) + step)%Q →
  let b1 := fst (updates ts1 (b, gl)) in
  let b2 := fst (updates (ts1 ++ ts2) (b, gl)) in
  (timing b1 <= timing b2)%Q ∧
  (timing b2 <= inject_Z (glyphCount b) + step)%Q ∧
  ((inject_Z (glyphCount b) <= timing b1)%Q → timing b2 = timing b1).
Proof.
  intros Hs Hts Hb b1 b2. subst b1 b2. rewrite updates_app.
  apply Forall_app in Hts as [Hts1 Hts2].
  destruct (timing_updates ts1 step (b, gl) Hs Hts1 Hb) as (_ & Hb1 & _).
  destruct (updates_fields ts1 (b, gl)) as [Hchars Hspeed].
  cbn [fst] in *.
  assert (Hlen : glyphCount (fst (updates ts1 (b, gl))) = glyphCount b)
    by (unfold glyphCount; by rewrite Hchars).
  rewrite <- Hlen. apply timing_updates.
  - by rewrite Hspeed.
  - by rewrite Hspeed.
  - by rewrite Hlen.
Qed.

(** C2.  After the constructor and any sequence of calls on the board
    ([setMessage], [update], [draw], binding), every cell holds one
    [(from, to)] pair of numbers, the same in all of its 16 vertices. *)
Theorem cell_vertices_identical
    (gl : GL) (options : Options) (cs : list Call) (c : nat) :
  let b := fst (run gl options cs) in
  c < rows b * cols b →
  verticesPerChar b = 16 ∧
  ∃ from to : Q, ∀ v, v < 16 →
    JsArray.get (charBuffer b) (from_slot b c v) = Some from ∧
    JsArray.get (charBuffer b) (to_slot b c v) = Some to.
Proof.
  intros b Hc. destruct (built_run gl options cs) as [Hvpc Hpairs].
  fold b in Hvpc, Hpairs. split; [exact Hvpc|].
  destruct (Hpairs c Hc) as (from & to & H). exists from, to.
  intros v Hv. apply H. by rewrite Hvpc.
Qed.

(** The rule of [fillCharBuffer] for one vertex of one cell. *)
Lemma fillCharBuffer_rule
    (b : Board) (random : nat → Q) (msg : list jsstring) (c v : nat)
    (previous_to : Q) :
  c < rows b * cols b → v < verticesPerChar b →
  JsArray.get (charBuffer b) (to_slot b c v) = Some previous_to →
  JsArray.get (charBuffer (setMessage random msg b)) (to_slot b c v) =
    Some (target b random msg c) ∧
  JsArray.get (charBuffer (setMessage random msg b)) (from_slot b c v) =
    Some (if (Qfloor (target b random msg c) <? Qfloor previous_to)%Z
          then previous_to - inject_Z (glyphCount b)
          else previous_to)%Q.
Proof.
  intros Hc Hv Hprev.
  destruct (setMessage_slots b random msg c v Hc Hv) as [Hto Hfrom].
  split; [exact Hto|]. rewrite Hfrom, Hprev. apply new_from_Some.
Qed.

(** C3.  When [setMessage] writes the target [new_to] over a stored [to]
    value [previous_to] (in any vertex of any cell of the grid), the [from]
    it stores is [previous_to], unless [floor new_to < floor previous_to]:
    then it is [previous_to - chars.length]. *)
Theorem from_is_previous_to_or_wrapped
    (b : Board) (random : nat → Q) (msg : list jsstring) (c v : nat)
    (previous_to : Q) :
  c < rows b * cols b → v < verticesPerChar b →
  JsArray.get (charBuffer b) (to_slot b c v) = Some previous_to →
  let b' := setMessage random msg b in
  let new_to := target b random msg c in
  JsArray.get (charBuffer b') (to_slot b c v) = Some new_to ∧
  JsArray.get (charBuffer b') (from_slot b c v) =
    Some (if (Qfloor new_to <? Qfloor previous_to)%Z
          then previous_to - inject_Z (glyphCount b)
          else previous_to)%Q.
Proof.
  intros Hc Hv Hprev b' new_to. subst b' new_to.
  by apply fillCharBuffer_rule.
Qed.

(** C4, as amended.  When the new target of a cell floors below the
    previous one, the [from] that [setMessage] stores is the previous [to]
    value itself minus the glyph count; its floor is [g_prev - glyphCount],
    and it lies above [g_prev - glyphCount] by the fractional part of the
    previous [to] value. *)
Theorem wrapped_from_floor
    (b : Board) (random : nat → Q) (msg : list jsstring) (c v : nat)
    (previous_to new_to from : Q) :
  c < rows b * cols b → v < verticesPerChar b →
  JsArray.get (charBuffer b) (to_slot b c v) = Some previous_to →
  let b' := setMessage random msg b in
  JsArray.get (charBuffer b') (to_slot b c v) = Some new_to →
  JsArray.get (charBuffer b') (from_slot b c v) = Some from →
  (Qfloor new_to < Qfloor previous_to)%Z →
  from = (previous_to - inject_Z (glyphCount b))%Q ∧
  Qfloor from = (Qfloor previous_to - glyphCount b)%Z ∧
  (from ==
   inject_Z (Qfloor previous_to - glyphCount b)
   + (previous_to - inject_Z (Qfloor previous_to)))%Q.
Proof.
  intros Hc Hv Hprev b' Hto Hfrom Hlt. subst b'.
  destruct (fillCharBuffer_rule b random msg c v previous_to
              Hc Hv Hprev) as [Hto' Hfrom'].
  rewrite Hto in Hto'. injection Hto' as Hnew. rewrite <- Hnew in Hfrom'.
  rewrite Hfrom in Hfrom'. injection Hfrom' as Hf.
  apply Z.ltb_lt in Hlt. rewrite Hlt in Hf. subst from.
  split; [reflexivity|]. split; [apply Qfloor_minus_Z|].
  unfold Z.sub. rewrite inject_Z_plus, inject_Z_opp. lra.
Qed.

(** C5.  For every grid of [rows] by [cols] cells the geometry builder
    produces 16 vertices (of 5 numbers each) and 24 index entries for each
    cell, and the constructor records [24 * rows * cols] as the number of
    indices to draw. *)
Theorem geometry_counts (b : Board) (gl : GL) (options : Options) :
  length (vertices (geometry b)) = 5 * (16 * rows b * cols b) ∧
  length (indices (geometry b)) = 24 * rows b * cols b ∧
  numIndices (fst (SolariBoard gl options)) =
    24 * opt_rows options * opt_cols options.
Proof.
  destruct (geometry_counted b (mkBuffers [] [])) as [Hi Hv].
  cbn [g_bufs indices vertices length] in Hi, Hv.
  split; [unfold geometry; lia|]. split; [unfold geometry; lia|].
  destruct (SolariBoard_built gl options)
    as (Hrows & Hcols & _ & _ & _ & _ & _ & _ & Hnum & _).
  rewrite Hnum.
  destruct (geometry_counted (fst (SolariBoard gl options)) (mkBuffers [] []))
    as [Hi' _].
  cbn [g_bufs indices length] in Hi'. unfold geometry.
  rewrite Hi', Hrows, Hcols. lia.
Qed.

(** C6.  An [update] uploads the character buffer exactly when the dirty
    flag is set, with one bind and one full [bufferSubData], and leaves the
    flag clear; an [update] that follows it with no [setMessage] in between
    issues no call on the device. *)
Theorem update_uploads_at_most_once (b : Board) (gl : GL) (t1 t2 : Q) :
  let s1 := update t1 b gl in
  let s2 := update t2 (fst s1) (snd s1) in
  snd s1 =
    (if charBufferDirty b
     then gl ++ [bindBuffer ARRAY_BUFFER (charBufferObject b);
                 bufferSubData ARRAY_BUFFER 0 (Float32Array (charBuffer b))]
     else gl) ∧
  charBufferDirty (fst s1) = false ∧
  snd s2 = snd s1.
Proof.
  unfold update.
  destruct (Qlt_bool (timing b) _);
    cbn [charBufferDirty charBuffer charBufferObject set_timing];
    destruct (charBufferDirty b) eqn:Hd;
    cbn [fst snd charBufferDirty set_charBufferDirty set_timing timing chars
         glyphCount];
    repeat match goal with
           | |- context [Qlt_bool ?x ?y] => destruct (Qlt_bool x y)
           end;
    cbn [fst snd charBufferDirty set_charBufferDirty set_timing];
    rewrite ?Hd, <- ?app_assoc; repeat split; reflexivity.
Qed.




(** C10.  Every entry of the index list the constructor builds and hands
    to the device is a non-negative integer below [16 * rows * cols], the
    number of vertices of the vertex list built with it. *)
Theorem indices_in_range (gl : GL) (options : Options) :
  let b := fst (SolariBoard gl options) in
  Forall (λ e, 0 ≤ e < Z.of_nat (16 * opt_rows options * opt_cols options))%Z
    (indices (geometry b)) ∧
  length (vertices (geometry b)) =
    5 * (16 * opt_rows options * opt_cols options) ∧
  last (snd (SolariBoard gl options)) =
    Some (bufferData ELEMENT_ARRAY_BUFFER (Uint16Array (indices (geometry b)))
            STATIC_DRAW).
Proof.
  intros b.
  destruct (SolariBoard_built gl options)
    as (Hrows & Hcols & _ & Hvpc & _ & _ & _ & _ & _ & Htrace).
  fold b in Hrows, Hcols, Hvpc, Htrace. repeat split.
  - rewrite <- Hrows, <- Hcols, <- Nat.mul_assoc. by apply geometry_indexed.
  - destruct (geometry_counted b (mkBuffers [] [])) as [_ Hv].
    cbn [g_bufs vertices length] in Hv. unfold geometry.
    rewrite Hv, Hrows, Hcols. lia.
  - rewrite Htrace. rewrite last_app. reflexivity.
Qed.

(** * Further properties *)

(** ** What the calls leave alone *)

Lemma call_fields c s :
  let b := fst s in
  let b' := fst (call c s) in
  chars b' = chars b ∧ rows b' = rows b ∧ cols b' = cols b ∧
  speed b' = speed b ∧ verticesPerChar b' = verticesPerChar b ∧
  numIndices b' = numIndices b ∧ vertexBuffer b' = vertexBuffer b ∧
  indexBuffer b' = indexBuffer b ∧ charBufferObject b' = charBufferObject b.
Proof.
  destruct c as [random msg|time| |ch p t]; cbn [call fst];
    try (repeat split; reflexivity).
  unfold update.
  destruct (Qlt_bool _ _); cbn [charBufferDirty set_timing];
    destruct (charBufferDirty (fst s)); repeat split.
Qed.

Lemma run_snoc gl options cs c :
  run gl options (cs ++ [c]) = call c (run gl options cs).
Proof. unfold run. by rewrite foldl_app. Qed.

Lemma run_fields gl options cs :
  let b0 := fst (SolariBoard gl options) in
  let b := fst (run gl options cs) in
  chars b = chars b0 ∧ rows b = rows b0 ∧ cols b = cols b0 ∧
  speed b = speed b0 ∧ verticesPerChar b = verticesPerChar b0 ∧
  numIndices b = numIndices b0 ∧ vertexBuffer b = vertexBuffer b0 ∧
  indexBuffer b = indexBuffer b0 ∧ charBufferObject b = charBufferObject b0.
Proof.
  induction cs as [|c cs IH] using rev_ind; [by repeat split|].
  rewrite run_snoc. cbn zeta in *.
  destruct (call_fields c (run gl options cs))
    as (H1 & H2 & H3 & H4 & H5 & H6 & H7 & H8 & H9).
  destruct IH as (I1 & I2 & I3 & I4 & I5 & I6 & I7 & I8 & I9).
  rewrite H1, H2, H3, H4, H5, H6, H7, H8, H9. by repeat split.
Qed.

Lemma length_indices_geometry b :
  length (indices (geometry b)) = 24 * (rows b * cols b).
Proof.
  destruct (geometry_counted b (mkBuffers [] [])) as [Hi _].
  exact Hi.
Qed.

Lemma numIndices_SolariBoard gl options :
  numIndices (fst (SolariBoard gl options)) =
  24 * opt_rows options * opt_cols options.
Proof.
  destruct (SolariBoard_built gl options)
    as (Hrows & Hcols & _ & _ & _ & _ & _ & _ & Hnum & _).
  rewrite Hnum, length_indices_geometry, Hrows, Hcols. lia.
Qed.

(** ** The constructor *)

(** X1.  A new board holds the blank glyph index [chars.length - 1] in every
    slot of a character buffer of [2 * 16 * cols * rows] numbers (so [from]
    and [to] agree in every cell and nothing is left to animate), its dirty
    flag is clear and its timing value is 0. *)
Theorem new_board_is_blank (gl : GL) (options : Options) :
  let b := fst (SolariBoard gl options) in
  charBuffer b =
    replicate (2 * 16 * opt_cols options * opt_rows options)
      (Some (inject_Z (Z.of_nat (length (opt_chars options)) - 1))) ∧
  charBufferDirty b = false ∧
  timing b = 0%Q.
Proof.
  destruct (SolariBoard_built gl options)
    as (_ & _ & Hchars & _ & Htiming & _ & Hdirty & Hbuf & _).
  cbn zeta. rewrite Hbuf. unfold blank, glyphCount. rewrite Hchars.
  by repeat split.
Qed.

(** X2.  The configuration of a board is fixed by the constructor: after
    any sequence of calls the glyph set, the grid size, the speed, the
    number of indices to draw and the three buffer objects are those of the
    new board, and the character buffer still has [2 * 16 * cols * rows]
    slots. *)
Theorem configuration_is_fixed
    (gl : GL) (options : Options) (cs : list Call) :
  let b0 := fst (SolariBoard gl options) in
  let b := fst (run gl options cs) in
  chars b = opt_chars options ∧
  rows b = opt_rows options ∧ cols b = opt_cols options ∧
  speed b = speed_or_default (opt_speed options) ∧
  verticesPerChar b = 16 ∧
  numIndices b = 24 * opt_rows options * opt_cols options ∧
  length (charBuffer b) = 2 * 16 * opt_cols options * opt_rows options ∧
  vertexBuffer b = vertexBuffer b0 ∧ indexBuffer b = indexBuffer b0 ∧
  charBufferObject b = charBufferObject b0.
Proof.
  destruct (run_fields gl options cs)
    as (H1 & H2 & H3 & H4 & H5 & H6 & H7 & H8 & H9).
  destruct (SolariBoard_built gl options)
    as (Hrows & Hcols & Hchars & Hvpc & _ & Hspeed & _).
  destruct (length_charBuffer_run gl options cs) as [_ Hlen].
  cbn zeta in *.
  rewrite H1, H2, H3, H4, H5, H6, numIndices_SolariBoard.
  rewrite Hlen, H2, H3, Hrows, Hcols.
  by repeat split.
Qed.

(** X3.  The speed of a board is never zero: a speed left out of the
    options, or given as 0, is replaced by 0.005, and any other speed is
    kept, through every sequence of calls. *)
Theorem speed_is_never_zero
    (gl : GL) (options : Options) (cs : list Call) :
  let b := fst (run gl options cs) in
  ¬ (speed b == 0)%Q ∧
  match opt_speed options with
  | Some q => if Qeq_bool q 0 then speed b = (5 # 1000)%Q else speed b = q
  | None => speed b = (5 # 1000)%Q
  end.
Proof.
  destruct (run_fields gl options cs) as (_ & _ & _ & Hs & _).
  destruct (SolariBoard_built gl options)
    as (_ & _ & _ & _ & _ & Hspeed & _).
  cbn zeta in *. rewrite Hs, Hspeed. unfold speed_or_default.
  destruct (opt_speed options) as [q|].
  - destruct (Qeq_bool q 0) eqn:Hq.
    + split; [by_computation | reflexivity].
    + split; [|reflexivity]. intros H0.
      apply Qeq_bool_iff in H0. congruence.
  - split; [by_computation | reflexivity].
Qed.

(** ** The calls on the device *)

Lemma steady_call_app b tail chunk :
  (∀ k c, tail !! k = Some c → steady_call b tail k c) →
  (∀ k c, chunk !! k = Some c → steady_call b chunk k c) →
  ∀ k c, (tail ++ chunk) !! k = Some c → steady_call b (tail ++ chunk) k c.
Proof.
  intros Htail Hchunk k c Hk.
  apply lookup_app_Some in Hk as [Hk|[Hge Hk]].
  - specialize (Htail k c Hk). destruct c; try exact Htail.
    destruct Htail as (H1 & H2 & H3 & k' & -> & Hbind).
    repeat split; try done. exists k'. split; [done|].
    by apply lookup_app_l_Some.
  - specialize (Hchunk _ c Hk). destruct c; try exact Hchunk.
    destruct Hchunk as (H1 & H2 & H3 & k' & Hk' & Hbind).
    repeat split; try done. exists (length tail + k'). split; [lia|].
    rewrite lookup_app_r by lia.
    by replace (length tail + k' - length tail) with k' by lia.
Qed.

(** The calls one call on the board adds to the trace. *)
Lemma call_steady b0 c s :
  rows (fst s) = rows b0 → cols (fst s) = cols b0 →
  charBufferObject (fst s) = charBufferObject b0 →
  numIndices (fst s) = 24 * rows b0 * cols b0 →
  length (charBuffer (fst s)) = 2 * 16 * cols b0 * rows b0 →
  ∃ chunk, snd (call c s) = snd s ++ chunk ∧
    ∀ k x, chunk !! k = Some x → steady_call b0 chunk k x.
Proof.
  intros Hrows Hcols Hobj Hnum Hlen.
  destruct c as [random msg|time| |ch p t]; cbn [call snd].
  - exists []. split; [by rewrite app_nil_r|]. intros k x Hk. by destruct k.
  - unfold update.
    destruct (Qlt_bool _ _);
      cbn [charBufferDirty charBuffer charBufferObject set_timing];
      destruct (charBufferDirty (fst s)); cbn [snd].
    2, 4: exists []; split; [by rewrite app_nil_r|];
          intros k x Hk; by destruct k.
    all: eexists [_; _]; split; [by rewrite <- app_assoc|];
      intros k x Hk; chunk_cases Hk k; [done|];
      repeat split; [by eexists|]; exists 0; split; [done|];
      cbn; by rewrite Hobj.
  - unfold draw. eexists [_]. split; [done|].
    intros k x Hk. chunk_cases Hk k. exact Hnum.
  - unfold bindShaderAttribs.
    destruct t as [t|]; [destruct (decide (t = 0))|].
    + eexists [_; _; _; _; _; _; _].
      split; [by rewrite <- !app_assoc|].
      intros k x Hk. chunk_cases Hk k; done.
    + eexists [_; _; _; _; _; _; _; _; _].
      split; [by rewrite <- !app_assoc|].
      intros k x Hk. chunk_cases Hk k; done.
    + eexists [_; _; _; _; _; _; _].
      split; [by rewrite <- !app_assoc|].
      intros k x Hk. chunk_cases Hk k; done.
Qed.

(** X4.  Once a board is built, no call on it creates a buffer or gives a
    buffer new storage ([bufferData]): the geometry is uploaded by the
    constructor only.  The only uploads are [bufferSubData] calls carrying
    all [2 * 16 * cols * rows] numbers of the character buffer at offset 0,
    each made right after binding the character buffer object, and every
    draw covers [24 * rows * cols] indices. *)
Theorem device_calls_after_construction
    (gl : GL) (options : Options) (cs : list Call) :
  let b0 := fst (SolariBoard gl options) in
  ∃ tail,
    snd (run gl options cs) = snd (SolariBoard gl options) ++ tail ∧
    ∀ k c, tail !! k = Some c → steady_call b0 tail k c.
Proof.
  cbn zeta. induction cs as [|c cs IH] using rev_ind.
  - exists []. split; [by rewrite app_nil_r|]. intros k c Hk. by destruct k.
  - destruct IH as (tail & Htrace & Htail). rewrite run_snoc.
    destruct (run_fields gl options cs)
      as (_ & Hrows & Hcols & _ & _ & Hnum & _ & _ & Hobj).
    destruct (length_charBuffer_run gl options cs) as [_ Hlen].
    cbn zeta in *.
    destruct (call_steady (fst (SolariBoard gl options)) c
                (run gl options cs)) as (chunk & Hcall & Hchunk);
      try done.
    + rewrite Hnum, numIndices_SolariBoard.
      destruct (SolariBoard_built gl options) as (-> & -> & _). done.
    + by rewrite Hlen, Hrows, Hcols.
    + exists (tail ++ chunk). split.
      * by rewrite Hcall, Htrace, app_assoc.
      * by apply steady_call_app.
Qed.

(** X5.  [draw] after any sequence of calls issues one [drawElements] call
    for the [24 * rows * cols] indices built by the constructor, and leaves
    the board as it is. *)
Theorem draw_covers_the_grid
    (gl : GL) (options : Options) (cs : list Call) :
  let s := run gl options cs in
  call CallDraw s =
  (fst s,
   snd s ++ [drawElements (24 * opt_rows options * opt_cols options)]).
Proof.
  cbn zeta. cbn [call]. unfold draw.
  destruct (run_fields gl options cs) as (_ & _ & _ & _ & _ & Hnum & _).
  cbn zeta in Hnum. by rewrite Hnum, numIndices_SolariBoard.
Qed.

Lemma messages_only (ms : list ((nat → Q) * list jsstring)) b gl :
  let s :=
    foldl (λ s c, call c s) (b, gl)
      ((λ m, CallSetMessage (fst m) (snd m)) <$> ms) in
  snd s = gl ∧ charBufferObject (fst s) = charBufferObject b ∧
  (ms ≠ [] → charBufferDirty (fst s) = true).
Proof.
  induction ms as [|m ms IH] using rev_ind; [by repeat split|].
  rewrite fmap_app, foldl_app. cbn [fmap list_fmap foldl call fst snd].
  destruct IH as (Hgl & Hobj & _). by repeat split.
Qed.

(** X6.  Messages set between two updates cost one upload: any number of
    [setMessage] calls, one at least, issue no call on the device, and the
    [update] that follows them issues one bind and one [bufferSubData]
    carrying the buffer left by the last message, and clears the dirty
    flag. *)
Theorem uploads_are_coalesced
    (b : Board) (gl : GL) (ms : list ((nat → Q) * list jsstring))
    (time : Q) :
  ms ≠ [] →
  let s :=
    foldl (λ s c, call c s) (b, gl)
      ((λ m, CallSetMessage (fst m) (snd m)) <$> ms) in
  let s' := call (CallUpdate time) s in
  snd s = gl ∧
  snd s' =
    gl ++ [bindBuffer ARRAY_BUFFER (charBufferObject b);
           bufferSubData ARRAY_BUFFER 0 (Float32Array (charBuffer (fst s)))] ∧
  charBuffer (fst s') = charBuffer (fst s) ∧
  charBufferDirty (fst s') = false.
Proof.
  intros Hms s s'. subst s'.
  destruct (messages_only ms b gl) as (Hgl & Hobj & Hdirty).
  fold s in Hgl, Hobj, Hdirty. specialize (Hdirty Hms).
  split; [exact Hgl|]. cbn [call]. unfold update. rewrite Hgl.
  destruct (Qlt_bool _ _);
    cbn [charBufferDirty charBuffer charBufferObject set_timing];
    rewrite Hdirty, Hobj; cbn; by rewrite <- app_assoc.
Qed.

(** ** Messages *)

Lemma indexOf_from_first arr c pos k :
  (Z.of_nat k < indexOf_from arr c pos - pos)%Z → arr !! k ≠ Some c.
Proof.
  revert pos k. induction arr as [|x arr IH]; intros pos k Hk; [done|].
  simpl in Hk. destruct (N.eq_dec x c) as [->|Hne]; [lia|].
  destruct k as [|k]; [cbn; congruence|].
  cbn. apply (IH (pos + 1)%Z). lia.
Qed.

(** X8.  A character of the upper-case form of a line that is in the glyph
    set gives the cell it falls in the index of the first glyph equal to
    it: the target floors to a valid index [g] of [chars], [chars[g]] is
    the character, and no earlier glyph is. *)
Theorem present_glyph_is_found
    (b : Board) (random : nat → Q) (msg : list jsstring) (j i v : nat)
    (ch : N) :
  unit_interval random →
  j < rows b → i < cols b → v < verticesPerChar b →
  toUpperCase (line_or_empty msg j) !! i = Some ch →
  ch ∈ chars b →
  ∃ g : nat,
    shown (JsArray.get (charBuffer (setMessage random msg b))
             (to_slot b (j * cols b + i) v)) = Some (Z.of_nat g) ∧
    chars b !! g = Some ch ∧
    ∀ k, k < g → chars b !! k ≠ Some ch.
Proof.
  intros Hr Hj Hi Hv Hch Hin.
  rewrite setMessage_shown by (try done; by apply cell_lt).
  rewrite cell_row, cell_col by done.
  destruct (glyph_present b (toUpperCase (line_or_empty msg j)) i ch)
    as (Hg & Hrange & Hlook); [done|done|].
  exists (Z.to_nat (glyph b (toUpperCase (line_or_empty msg j)) i)).
  split; [f_equal; lia|]. split; [exact Hlook|].
  intros k Hk. apply (indexOf_from_first _ _ 0%Z).
  fold (indexOf (chars b) ch). rewrite <- Hg. lia.
Qed.

(** X9.  Setting the same message twice flips nothing: after the second
    call the [from] and the [to] of every cell show the same glyph. *)
Theorem same_message_flips_nothing
    (b : Board) (random1 random2 : nat → Q) (msg : list jsstring)
    (c v : nat) :
  unit_interval random1 → unit_interval random2 →
  c < rows b * cols b → v < verticesPerChar b →
  let b2 := setMessage random2 msg (setMessage random1 msg b) in
  ∃ g : Z,
    shown (JsArray.get (charBuffer b2) (from_slot b c v)) = Some g ∧
    shown (JsArray.get (charBuffer b2) (to_slot b c v)) = Some g.
Proof.
  intros Hr1 Hr2 Hc Hv b2. subst b2.
  set (b1 := setMessage random1 msg b).
  destruct (setMessage_slots b random1 msg c v Hc Hv) as [Hto1 _].
  destruct (fillCharBuffer_rule b1 random2 msg c v
              (target b random1 msg c) Hc Hv Hto1) as [Hto2 Hfrom2].
  change (to_slot b1 c v) with (to_slot b c v) in Hto2.
  change (from_slot b1 c v) with (from_slot b c v) in Hfrom2.
  change (target b1 random2 msg c) with (target b random2 msg c)
    in Hto2, Hfrom2.
  rewrite Hto2, Hfrom2. unfold shown, target.
  cbn [fmap option_fmap option_map].
  destruct (Hr1 c), (Hr2 c). rewrite !Qfloor_jitter by done.
  rewrite Z.ltb_irrefl. rewrite Qfloor_jitter by done. by eexists.
Qed.

(** ** Flips run forward *)

Lemma indexOf_from_range arr c pos :
  indexOf_from arr c pos = (-1)%Z ∨
  (pos ≤ indexOf_from arr c pos < pos + Z.of_nat (length arr))%Z.
Proof.
  revert pos. induction arr as [|x arr IH]; intros pos; [by left|].
  simpl. destruct (N.eq_dec x c) as [_|_]; [right; lia|].
  destruct (IH (pos + 1)%Z) as [->|Hr]; [by left | right; lia].
Qed.

Lemma glyph_index_blank b : glyph_index b (blank b).
Proof.
  unfold glyph_index, blank, glyphCount.
  destruct (chars b); [right | left]; cbn [length]; lia.
Qed.

Lemma glyph_index_glyph b msgRow i : glyph_index b (glyph b msgRow i).
Proof.
  unfold glyph. destruct (decide (i < length msgRow));
    [|apply glyph_index_blank].
  destruct (msgRow !! i) as [c|]; [|apply glyph_index_blank].
  cbn zeta. destruct (decide (indexOf (chars b) c ≠ (-1)%Z)) as [Hk|_];
    [|apply glyph_index_blank].
  left. unfold indexOf, glyphCount in *.
  destruct (indexOf_from_range (chars b) c 0); [done | lia].
Qed.

Lemma forward_SolariBoard gl options : forward (fst (SolariBoard gl options)).
Proof.
  destruct (SolariBoard_built gl options)
    as (Hrows & Hcols & _ & Hvpc & _ & _ & _ & Hbuf & _).
  intros c v Hc Hv.
  exists (inject_Z (blank (fst (SolariBoard gl options)))),
    (inject_Z (blank (fst (SolariBoard gl options)))).
  rewrite Hbuf. unfold from_slot, to_slot.
  rewrite Hvpc in *. rewrite Hrows, Hcols in Hc.
  rewrite !get_replicate by nia. rewrite Qfloor_Z.
  repeat split; [apply glyph_index_blank | lia | lia].
Qed.

Lemma forward_setMessage random msg b :
  unit_interval random → forward b → forward (setMessage random msg b).
Proof.
  intros Hr Hb c v Hc Hv.
  destruct (Hb c v Hc Hv) as (from & to & _ & Hto & Hidx & _ & _).
  destruct (fillCharBuffer_rule b random msg c v to Hc Hv Hto)
    as [Hto' Hfrom'].
  eexists _, _. split; [exact Hfrom'|]. split; [exact Hto'|].
  assert (Hg : Qfloor (target b random msg c) =
               glyph b (toUpperCase (line_or_empty msg (c / cols b)))
                 (c mod cols b)).
  { unfold target. destruct (Hr c). by apply Qfloor_jitter. }
  pose proof (glyph_index_glyph b
                (toUpperCase (line_or_empty msg (c / cols b)))
                (c mod cols b)) as Hnew.
  rewrite <- Hg in Hnew.
  change (glyphCount (setMessage random msg b)) with (glyphCount b).
  split; [exact Hnew|].
  unfold glyph_index in *.
  destruct (Z.ltb_spec (Qfloor (target b random msg c)) (Qfloor to)).
  - rewrite Qfloor_minus_Z. lia.
  - lia.
Qed.

Lemma forward_call c s :
  jitter_ok c → forward (fst s) → forward (fst (call c s)).
Proof.
  intros Hc Hs. destruct c as [random msg|time| |ch p t]; cbn [call fst].
  - by apply forward_setMessage.
  - destruct (update_fields time (fst s) (snd s))
      as (Hchars & Hrows & Hcols & Hv & _ & Hbuf).
    unfold forward, from_slot, to_slot, glyph_index, glyphCount.
    rewrite Hrows, Hcols, Hv, Hbuf, Hchars. exact Hs.
  - exact Hs.
  - exact Hs.
Qed.

(** X10.  Flips run forward.  After the constructor and any sequence of
    calls whose random numbers come from [0, 1), in every vertex of every
    cell the [to] value shows a valid glyph index and the [from] value
    shows an index at or below it, less than one turn of the glyph set
    behind. *)
Theorem flips_run_forward
    (gl : GL) (options : Options) (cs : list Call) (c v : nat) :
  Forall jitter_ok cs →
  let b := fst (run gl options cs) in
  c < rows b * cols b → v < 16 →
  ∃ from to : Q,
    JsArray.get (charBuffer b) (from_slot b c v) = Some from ∧
    JsArray.get (charBuffer b) (to_slot b c v) = Some to ∧
    glyph_index b (Qfloor to) ∧
    (Qfloor from ≤ Qfloor to)%Z ∧
    (Qfloor to - Qfloor from < Z.max 1 (glyphCount b))%Z.
Proof.
  intros Hcs b Hc Hv.
  assert (Hf : forward b).
  { subst b. clear Hc. induction cs as [|x cs IH] using rev_ind.
    - apply forward_SolariBoard.
    - apply Forall_app in Hcs as [Hcs Hx].
      apply Forall_inv in Hx.
      rewrite run_snoc. apply forward_call; [exact Hx|]. by apply IH. }
  apply Hf; [done|].
  destruct (built_run gl options cs) as [Hvpc _]. fold b in Hvpc.
  by rewrite Hvpc.
Qed.

(** ** The index list *)

Lemma grid_indices_S c :
  grid_indices (S c) =
  grid_indices c ++ ((λ e, Z.of_nat (16 * c) + e)%Z <$> cell_indices).
Proof.
  unfold grid_indices. by rewrite seq_S, bind_app, bind_singleton.
Qed.

Lemma length_grid_indices c : length (grid_indices c) = 24 * c.
Proof.
  induction c as [|c IH]; [reflexivity|].
  rewrite grid_indices_S, length_app, IH, length_fmap.
  change (length cell_indices) with 24. lia.
Qed.

Lemma lookup_grid_indices n c r :
  c < n → r < 24 →
  grid_indices n !! (24 * c + r) =
  (λ e, Z.of_nat (16 * c) + e)%Z <$> cell_indices !! r.
Proof.
  intros Hc Hr. induction n as [|n IH]; [lia|].
  rewrite grid_indices_S. destruct (decide (c = n)) as [->|Hne].
  - rewrite lookup_app_r by (rewrite length_grid_indices; lia).
    rewrite length_grid_indices, list_lookup_fmap. f_equal. f_equal. lia.
  - rewrite lookup_app_l by (rewrite length_grid_indices; lia).
    apply IH. lia.
Qed.

Lemma cell_body_listed c g : listed c g → listed (S c) (cell_body 16 g).
Proof.
  intros [Hx Hl]. unfold listed, cell_body. cbn [g_bufs g_index]. split.
  - rewrite Hx. lia.
  - rewrite !indices_setupCharHalf, Hl, grid_indices_S, Hx.
    rewrite <- !app_assoc. f_equal. unfold cell_indices.
    cbn [app fmap list_fmap].
    repeat (apply (f_equal2 cons); [lia|]). reflexivity.
Qed.

Lemma index_list_shape (gl : GL) (options : Options) :
  indices (geometry (fst (SolariBoard gl options))) =
  grid_indices (opt_rows options * opt_cols options).
Proof.
  destruct (SolariBoard_built gl options) as (Hrows & Hcols & _ & Hvpc & _).
  cbn zeta in *. rewrite <- Hrows, <- Hcols.
  set (b := fst (SolariBoard gl options)) in *.
  unfold geometry, _buildBuffers. cbn [snd].
  match goal with
  | |- indices (g_bufs ?g) = _ =>
      enough (H : listed (rows b * cols b) g) by apply H
  end.
  cbn [verticesPerChar rows cols set_charBuffer set_charBufferDirty].
  rewrite Hvpc. apply rows_inv.
  - intros c g. apply cell_body_listed.
  - intros c g x y H. exact H.
  - split; reflexivity.
Qed.

(** X11.  The index list of a board is, cell after cell in row-major
    order, the same 24 entries counted from the first of the 16 vertices of
    the cell: two triangles for each flap, the back-facing fourth flap wound
    the other way. *)
Theorem index_list_by_cell (gl : GL) (options : Options) :
  indices (geometry (fst (SolariBoard gl options))) =
  c ← seq 0 (opt_rows options * opt_cols options);
  (λ e, Z.of_nat (16 * c) + e)%Z <$>
    [2; 3; 0; 2; 0; 1; 6; 7; 4; 6; 4; 5; 10; 11; 8; 10; 8; 9;
     13; 12; 15; 13; 15; 14]%Z.
Proof. apply index_list_shape. Qed.

(** X12.  Every triangle of the index list joins three different vertices
    of one flap: triangle [s] of cell [c] uses the vertices of flap
    [4 * c + s / 2], which are the four from [4 * (4 * c + s / 2)] on. *)
Theorem triangles_stay_in_their_flap
    (gl : GL) (options : Options) (c s : nat) :
  c < opt_rows options * opt_cols options → s < 8 →
  let ixs := indices (geometry (fst (SolariBoard gl options))) in
  let first := Z.of_nat (4 * (4 * c + s / 2)) in
  ∃ p q r : Z,
    ixs !! (24 * c + 3 * s) = Some p ∧
    ixs !! (24 * c + 3 * s + 1) = Some q ∧
    ixs !! (24 * c + 3 * s + 2) = Some r ∧
    p ≠ q ∧ q ≠ r ∧ p ≠ r ∧
    (first ≤ p < first + 4)%Z ∧ (first ≤ q < first + 4)%Z ∧
    (first ≤ r < first + 4)%Z.
Proof.
  intros Hc Hs ixs first. subst ixs first. rewrite index_list_shape.
  rewrite <- !Nat.add_assoc.
  rewrite !lookup_grid_indices by lia.
  do 8 (destruct s as [|s];
        [cbn; eexists _, _, _; repeat split; first [reflexivity | lia]|]).
  lia.
Qed.

(** ** The vertex list *)

(** The 80 numbers the body of the cell loop appends: for each of the 16
    vertices its place from [(x, y)], its marker and its texture
    coordinates. *)
Lemma cell_body_block vpc g :
  ∃ block,
    vertices (g_bufs (cell_body vpc g)) = vertices (g_bufs g) ++ block ∧
    length block = 80 ∧
    ∀ k, k < 16 →
      ∃ px py z u v : Q,
        block !! (5 * k) = Some px ∧ block !! (5 * k + 1) = Some py ∧
        block !! (5 * k + 2) = Some z ∧ block !! (5 * k + 3) = Some u ∧
        block !! (5 * k + 4) = Some v ∧
        px = corner_x (g_x g) k ∧ py = corner_y (g_y g) k ∧
        z = vertex_z k ∧ (u == vertex_u k)%Q ∧ (v == vertex_v k)%Q.
Proof.
  unfold cell_body, setupCharHalf, extend. cbn [g_bufs vertices].
  rewrite <- !app_assoc. cbn [app].
  eexists. split; [reflexivity|]. split; [reflexivity|].
  intros k Hk.
  do 16 (destruct k as [|k];
         [eexists _, _, _, _, _;
          repeat (split; [reflexivity|]);
          table_values; split; reflexivity|]).
  lia.
Qed.

Lemma vertex_at_app nrows ncols vs block c k :
  vertex_at nrows ncols vs c k → vertex_at nrows ncols (vs ++ block) c k.
Proof.
  intros (px & py & z & u & v & H0 & H1 & H2 & H3 & H4 & Hrest).
  exists px, py, z, u, v.
  repeat (split; [by apply lookup_app_l_Some|]). exact Hrest.
Qed.

Lemma cell_body_placed nrows ncols vpc j i g :
  i < ncols →
  placed nrows ncols (j * ncols + i) g →
  g_x g = column_x ncols i → g_y g = row_y nrows j →
  placed nrows ncols (S (j * ncols + i)) (cell_body vpc g).
Proof.
  intros Hi [Hlen Hold] Hx Hy.
  destruct (cell_body_block vpc g) as (block & Hv & Hblock & Hnew).
  unfold placed. rewrite Hv.
  split; [rewrite length_app, Hlen, Hblock; lia|].
  intros c' k Hc' Hk.
  destruct (decide (c' = j * ncols + i)) as [->|Hne].
  - destruct (Hnew k Hk)
      as (px & py & z & u & v & H0 & H1 & H2 & H3 & H4 & Hpx & Hpy & Hrest).
    exists px, py, z, u, v.
    rewrite cell_row, cell_col by done.
    rewrite !lookup_app_r by lia. rewrite Hlen.
    replace (5 * (16 * (j * ncols + i) + k) - 5 * (16 * (j * ncols + i)))
      with (5 * k) by lia.
    replace (5 * (16 * (j * ncols + i) + k) + 1
             - 5 * (16 * (j * ncols + i))) with (5 * k + 1) by lia.
    replace (5 * (16 * (j * ncols + i) + k) + 2
             - 5 * (16 * (j * ncols + i))) with (5 * k + 2) by lia.
    replace (5 * (16 * (j * ncols + i) + k) + 3
             - 5 * (16 * (j * ncols + i))) with (5 * k + 3) by lia.
    replace (5 * (16 * (j * ncols + i) + k) + 4
             - 5 * (16 * (j * ncols + i))) with (5 * k + 4) by lia.
    repeat (split; [assumption|]).
    split; [by rewrite Hpx, Hx|]. split; [by rewrite Hpy, Hy|]. exact Hrest.
  - apply vertex_at_app. apply Hold; [lia|done].
Qed.

Lemma row_body_placed nrows ncols vpc j g :
  placed nrows ncols (j * ncols) g →
  g_y g = row_y nrows j →
  let g' :=
    row_body vpc ncols (- Qnat ncols / 2 * (charWidth + spacing))%Q g in
  placed nrows ncols (S j * ncols) g' ∧ g_y g' = row_y nrows (S j).
Proof.
  intros Hg Hy. unfold row_body. cbn zeta.
  match goal with
  | |- context [for_loop ncols ?body ?g0] =>
      assert (H : placed nrows ncols (j * ncols + ncols)
                    (for_loop ncols body g0) ∧
                  g_x (for_loop ncols body g0) = column_x ncols ncols ∧
                  g_y (for_loop ncols body g0) = row_y nrows j)
  end.
  { apply (for_loop_ind
             (λ i g', placed nrows ncols (j * ncols + i) g' ∧
                      g_x g' = column_x ncols i ∧
                      g_y g' = row_y nrows j)).
    - rewrite Nat.add_0_r. split; [exact Hg|]. cbn [g_x g_y].
      split; [reflexivity | exact Hy].
    - intros i g' Hi (Hp & Hx & Hy'). rewrite Nat.add_succ_r.
      split; [by apply cell_body_placed|].
      unfold cell_body. cbn [g_x g_y].
      split; [by rewrite Hx | exact Hy']. }
  destruct H as (Hp & _ & Hy'). cbn [g_bufs g_y].
  replace (S j * ncols) with (j * ncols + ncols) by lia.
  split; [exact Hp|]. by rewrite Hy'.
Qed.

(** Every vertex of the geometry of a board. *)
Lemma geometry_placed b c k :
  c < rows b * cols b → k < 16 →
  vertex_at (rows b) (cols b) (vertices (geometry b)) c k.
Proof.
  intros Hc Hk. unfold geometry, _buildBuffers. cbn [snd].
  cbn [verticesPerChar rows cols set_charBuffer set_charBufferDirty].
  match goal with
  | |- vertex_at _ _ (vertices (g_bufs (for_loop _ ?body ?g0))) _ _ =>
      assert (H : placed (rows b) (cols b) (rows b * cols b)
                    (for_loop (rows b) body g0) ∧
                  g_y (for_loop (rows b) body g0)
                  = row_y (rows b) (rows b))
  end.
  { apply (for_loop_ind
             (λ j g', placed (rows b) (cols b) (j * cols b) g' ∧
                      g_y g' = row_y (rows b) j)).
    - split; [split; [reflexivity | intros; lia]|]. reflexivity.
    - intros j g' Hj [Hp Hy]. by apply row_body_placed. }
  destruct H as [[_ Hall] _]. by apply Hall.
Qed.


(** X14.  The animation marker.  The third number of every vertex is 0,
    except on the two top corners of the two animated flaps of each cell
    (vertices 10, 11, 14 and 15 of the 16), where it is 1. *)
Theorem marker_on_animated_tops (b : Board) (n : nat) :
  n < 16 * (rows b * cols b) →
  vertices (geometry b) !! (5 * n + 2) =
  Some (if decide (n mod 16 ∈ [10; 11; 14; 15]) then 1%Q else 0%Q).
Proof.
  intros Hn.
  assert (Hk : n mod 16 < 16) by (apply Nat.mod_upper_bound; lia).
  destruct (geometry_placed b (n / 16) (n mod 16))
    as (px & py & z & u & v & _ & _ & H2 & _ & _ & _ & _ & Hz & _);
    [apply Nat.Div0.div_lt_upper_bound; lia | done |].
  rewrite <- (Nat.div_mod_eq n 16) in H2. rewrite H2, Hz. f_equal.
  generalize dependent (n mod 16). intros k Hk _.
  do 16 (destruct k as [|k]; [by vm_compute|]). lia.
Qed.

(** X15.  The texture coordinates of a vertex depend on its number within
    the cell only: [u] starts at 0 for the flaps of the current glyph and
    at 1 for the flaps of the next glyph, [v] covers the lower half
    [0 .. 0.5] in the first flap, the upper half [0.5 .. 1] in the second
    and third, and runs down from 0.5 to 0 in the back-facing fourth. *)
Theorem texture_coordinates_by_corner (b : Board) (c k : nat) :
  c < rows b * cols b → k < 16 →
  ∃ u v : Q,
    vertices (geometry b) !! (5 * (16 * c + k) + 3) = Some u ∧
    vertices (geometry b) !! (5 * (16 * c + k) + 4) = Some v ∧
    (u == vertex_u k)%Q ∧ (v == vertex_v k)%Q.
Proof.
  intros Hc Hk.
  destruct (geometry_placed b c k Hc Hk)
    as (px & py & z & u & v & _ & _ & _ & H3 & H4 & _ & _ & _ & Hu & Hv).
  exists u, v. by repeat split.
Qed.

(** X16.  The number of glyphs a cell flips through is the forward
    distance from the glyph it showed to the glyph it is given, modulo the
    size of the glyph set: [floor to - floor from] after [setMessage] is
    [(g_new - g_prev) mod chars.length]. *)
Theorem flip_distance_is_modular
    (b : Board) (random : nat → Q) (msg : list jsstring) (c v : nat)
    (previous_to : Q) :
  unit_interval random →
  c < rows b * cols b → v < verticesPerChar b →
  JsArray.get (charBuffer b) (to_slot b c v) = Some previous_to →
  (0 ≤ Qfloor previous_to < glyphCount b)%Z →
  ∃ from to : Q,
    JsArray.get (charBuffer (setMessage random msg b)) (from_slot b c v)
    = Some from ∧
    JsArray.get (charBuffer (setMessage random msg b)) (to_slot b c v)
    = Some to ∧
    (Qfloor to - Qfloor from =
     (Qfloor to - Qfloor previous_to) mod glyphCount b)%Z.
Proof.
  intros Hr Hc Hv Hprev Hrange.
  destruct (fillCharBuffer_rule b random msg c v previous_to Hc Hv Hprev)
    as [Hto Hfrom].
  eexists _, _. split; [exact Hfrom|]. split; [exact Hto|].
  assert (Hg : Qfloor (target b random msg c) =
               glyph b (toUpperCase (line_or_empty msg (c / cols b)))
                 (c mod cols b)).
  { unfold target. destruct (Hr c). by apply Qfloor_jitter. }
  pose proof (glyph_index_glyph b
                (toUpperCase (line_or_empty msg (c / cols b)))
                (c mod cols b)) as Hnew.
  rewrite <- Hg in Hnew. unfold glyph_index in Hnew.
  set (g_new := Qfloor (target b random msg c)) in *.
  set (g_prev := Qfloor previous_to) in *.
  set (len := glyphCount b) in *.
  destruct (Z.ltb_spec g_new g_prev).
  - rewrite Qfloor_minus_Z. fold g_prev len.
    rewrite <- (Z_mod_plus_full (g_new - g_prev) 1 len).
    rewrite Z.mod_small by lia. lia.
  - fold g_prev. rewrite Z.mod_small by lia. reflexivity.
Qed.

(** ** The constructor on the device *)



(** ** The timing value at its end *)

Lemma timing_call_frozen c s :
  (inject_Z (glyphCount (fst s)) <= timing (fst s))%Q →
  timing (fst (call c s)) = timing (fst s) ∧
  chars (fst (call c s)) = chars (fst s).
Proof.
  intros Hge. destruct c as [random msg|time| |ch p t]; cbn [call fst];
    try (split; reflexivity).
  destruct (update_fields time (fst s) (snd s)) as (Hc & _).
  split; [|exact Hc]. rewrite timing_update.
  destruct (Qlt_bool _ _) eqn:Hlt; [|reflexivity].
  apply Qlt_bool_iff in Hlt. lra.
Qed.

(** X18.  Once the timing value has reached the glyph-set length, no call
    changes it again: later updates, whatever their elapsed time, leave it
    as it is, and [setMessage] does not reset it. *)
Theorem timing_is_frozen_at_the_end
    (b : Board) (gl : GL) (cs : list Call) :
  (inject_Z (glyphCount b) <= timing b)%Q →
  timing (fst (foldl (λ s c, call c s) (b, gl) cs)) = timing b.
Proof.
  intros Hge.
  enough (H : timing (fst (foldl (λ s c, call c s) (b, gl) cs)) = timing b ∧
              chars (fst (foldl (λ s c, call c s) (b, gl) cs)) = chars b)
    by apply H.
  induction cs as [|c cs IH] using rev_ind; [by split|].
  rewrite foldl_app. cbn [foldl]. destruct IH as [Ht Hc].
  destruct (timing_call_frozen c (foldl (λ s c, call c s) (b, gl) cs))
    as [Ht' Hc'].
  - unfold glyphCount. rewrite Hc, Ht. exact Hge.
  - by rewrite Ht', Hc', Ht, Hc.
Qed.

End Properties.

(** * Witnesses, examples and counterexamples *)

(** They run on the sample boards, with the sample case mappings. *)
#[local] Existing Instance sample_strings.


(** ** The scenario of the specification *)

(** A 1 by 3 board over ["ABC "] after [setMessage(["AB"])]: the cells show
    the glyphs 0 and 1 and the blank glyph 3. *)
Example scenario_AB :
  let b := setMessage (always (1 # 2)) [utf16 "AB"] sample_board in
  map (λ c, shown (JsArray.get (charBuffer b) (to_slot b c 0))) [0; 1; 2] =
  [Some 0%Z; Some 1%Z; Some 3%Z].
Proof. by_computation. Qed.

(** The six index entries of the four flaps of the only cell of a 1 by 1
    board: the last flap, back-facing, is wound the other way. *)
Example scenario_indices :
  indices (geometry (fst (SolariBoard [] (mkOptions 0 [] 1 1 None)))) =
  [2; 3; 0; 2; 0; 1; 6; 7; 4; 6; 4; 5; 10; 11; 8; 10; 8; 9;
   13; 12; 15; 13; 15; 14]%Z.
Proof. by_computation. Qed.

(** A write past the end of an array extends it with holes. *)
Example scenario_extend :
  JsArray.set [Some 1%Q] 3 (Some 2%Q) = [Some 1%Q; None; None; Some 2%Q].
Proof. reflexivity. Qed.

(** ** The claims *)

Lemma timing_monotone_overshoot_bounded_witness :
  (0 <= speed sample_board)%Q ∧
  Forall (λ t, 0 <= t ∧ t * speed sample_board <= 5)%Q
    ([100%Q] ++ [1000%Q; 7%Q]) ∧
  (timing sample_board <= inject_Z (glyphCount sample_board) + 5)%Q ∧
  let b1 := fst (updates [100%Q] (sample_board, [])) in
  let b2 := fst (updates ([100%Q] ++ [1000%Q; 7%Q]) (sample_board, [])) in
  (timing b1 <= timing b2)%Q ∧
  (timing b2 <= inject_Z (glyphCount sample_board) + 5)%Q ∧
  ((inject_Z (glyphCount sample_board) <= timing b1)%Q →
   timing b2 = timing b1).
Proof.
  assert (H1 : (0 <= speed sample_board)%Q) by by_computation.
  assert (H2 : Forall (λ t, 0 <= t ∧ t * speed sample_board <= 5)%Q
                 ([100%Q] ++ [1000%Q; 7%Q]))
    by (repeat constructor; by_computation).
  assert (H3 : (timing sample_board
                <= inject_Z (glyphCount sample_board) + 5)%Q)
    by by_computation.
  split; [exact H1|]. split; [exact H2|]. split; [exact H3|].
  exact (timing_monotone_overshoot_bounded sample_board [] [100%Q]
           [1000%Q; 7%Q] 5%Q H1 H2 H3).
Defined.

(** C1 as stated fails: one [update] with a large elapsed time takes the
    timing value of a fresh board from 0 to 5, past the glyph-set length 4. *)
Lemma timing_exceeds_glyph_count :
  let b := sample_board in
  let b' := fst (update 1000 b []) in
  (0 <= 1000)%Q ∧ (timing b == 0)%Q ∧ glyphCount b' = 4%Z ∧
  (timing b' == 5)%Q ∧
  ¬ (timing b' <= inject_Z (glyphCount b'))%Q.
Proof.
  cbn zeta. repeat split; try by_computation.
  vm_compute. intros H. by apply H.
Qed.

(** The amended C1 asks for a non-negative speed: the constructor takes any
    speed but 0, and at a negative speed an update takes the timing value
    down. *)
Example timing_decreases_at_negative_speed :
  let b :=
    fst (SolariBoard [] (mkOptions 0 (utf16 "ABC ") 1 3 (Some (-1)%Q))) in
  let b' := fst (update 16 b []) in
  (speed b == -1)%Q ∧ (timing b == 0)%Q ∧ (timing b' == -16)%Q ∧
  ¬ (timing b <= timing b')%Q.
Proof.
  cbn zeta. repeat split; try by_computation.
  vm_compute. intros H. by apply H.
Qed.

Lemma cell_vertices_identical_witness :
  let cs := [CallSetMessage (always (1 # 2)) [utf16 "aB"];
             CallUpdate 16;
             CallSetMessage (always (1 # 4)) [utf16 "CABC"]] in
  let b := fst (run [] sample_options cs) in
  1 < rows b * cols b ∧
  verticesPerChar b = 16 ∧
  ∃ from to : Q, ∀ v, v < 16 →
    JsArray.get (charBuffer b) (from_slot b 1 v) = Some from ∧
    JsArray.get (charBuffer b) (to_slot b 1 v) = Some to.
Proof.
  intros cs b.
  assert (H : 1 < rows b * cols b) by (vm_compute; lia).
  split; [exact H|].
  exact (cell_vertices_identical [] sample_options cs 1 H).
Defined.

Lemma from_is_previous_to_or_wrapped_witness :
  0 < rows shows_C * cols shows_C ∧ 3 < verticesPerChar shows_C ∧
  JsArray.get (charBuffer shows_C) (to_slot shows_C 0 3) = Some (41 # 20)%Q ∧
  let b' := setMessage (always 0) [utf16 "A"] shows_C in
  let new_to := target shows_C (always 0) [utf16 "A"] 0 in
  JsArray.get (charBuffer b') (to_slot shows_C 0 3) = Some new_to ∧
  JsArray.get (charBuffer b') (from_slot shows_C 0 3) =
    Some (if (Qfloor new_to <? Qfloor (41 # 20))%Z
          then (41 # 20) - inject_Z (glyphCount shows_C)
          else 41 # 20)%Q.
Proof.
  assert (H1 : 0 < rows shows_C * cols shows_C) by (vm_compute; lia).
  assert (H2 : 3 < verticesPerChar shows_C) by (vm_compute; lia).
  assert (H3 : JsArray.get (charBuffer shows_C) (to_slot shows_C 0 3)
               = Some (41 # 20)%Q) by (vm_compute; reflexivity).
  split; [exact H1|]. split; [exact H2|]. split; [exact H3|].
  exact (from_is_previous_to_or_wrapped shows_C (always 0) [utf16 "A"] 0 3
           (41 # 20)%Q H1 H2 H3).
Defined.

Lemma wrapped_from_floor_witness :
  0 < rows shows_C * cols shows_C ∧ 5 < verticesPerChar shows_C ∧
  JsArray.get (charBuffer shows_C) (to_slot shows_C 0 5) = Some (41 # 20)%Q ∧
  JsArray.get (charBuffer shows_A) (to_slot shows_C 0 5) = Some (0 # 10)%Q ∧
  JsArray.get (charBuffer shows_A) (from_slot shows_C 0 5) =
    Some ((41 # 20) - 4)%Q ∧
  (Qfloor (0 # 10) < Qfloor (41 # 20))%Z ∧
  (((41 # 20) - 4)%Q = ((41 # 20) - inject_Z (glyphCount shows_C))%Q ∧
   Qfloor ((41 # 20) - 4) = (Qfloor (41 # 20) - glyphCount shows_C)%Z ∧
   ((41 # 20) - 4 ==
    inject_Z (Qfloor (41 # 20) - glyphCount shows_C)
    + ((41 # 20) - inject_Z (Qfloor (41 # 20))))%Q).
Proof.
  assert (H1 : 0 < rows shows_C * cols shows_C) by (vm_compute; lia).
  assert (H2 : 5 < verticesPerChar shows_C) by (vm_compute; lia).
  assert (H3 : JsArray.get (charBuffer shows_C) (to_slot shows_C 0 5)
               = Some (41 # 20)%Q) by (vm_compute; reflexivity).
  assert (H4 : JsArray.get (charBuffer shows_A) (to_slot shows_C 0 5)
               = Some (0 # 10)%Q) by (vm_compute; reflexivity).
  assert (H5 : JsArray.get (charBuffer shows_A) (from_slot shows_C 0 5)
               = Some ((41 # 20) - 4)%Q) by (vm_compute; reflexivity).
  assert (H6 : (Qfloor (0 # 10) < Qfloor (41 # 20))%Z)
    by (vm_compute; reflexivity).
  repeat (split; [assumption|]).
  exact (wrapped_from_floor shows_C (always 0) [utf16 "A"] 0 5
           (41 # 20)%Q (0 # 10)%Q ((41 # 20) - 4)%Q H1 H2 H3 H4 H5 H6).
Defined.

(** C4 as stated fails: on a cell that went from ["C"] (stored target 2.05,
    [g_prev = 2]) to ["A"] ([g_new = 0]) over four glyphs, the stored [from]
    is [2.05 - 4 = -1.95], not [g_prev - glyphCount = -2]. *)
Lemma wrapped_from_not_integral :
  glyphCount shows_C = 4%Z ∧
  shown (JsArray.get (charBuffer shows_C) (to_slot shows_C 0 0)) = Some 2%Z ∧
  shown (JsArray.get (charBuffer shows_A) (to_slot shows_A 0 0)) = Some 0%Z ∧
  ∃ from : Q,
    JsArray.get (charBuffer shows_A) (from_slot shows_A 0 0) = Some from ∧
    (from == - (39 # 20))%Q ∧
    ¬ (from == inject_Z (2 - 4))%Q.
Proof.
  split; [by_computation|]. split; [by_computation|].
  split; [by_computation|].
  eexists. split; [vm_compute; reflexivity|].
  split; by_computation.
Qed.






(** ** The further properties *)

Lemma uploads_are_coalesced_witness :
  let ms := [(always (1 # 2), [utf16 "A"]); (always 0, [utf16 "BC"])] in
  ms ≠ [] ∧
  let s :=
    foldl (λ s c, call c s) (sample_board, [])
      ((λ m, CallSetMessage (fst m) (snd m)) <$> ms) in
  let s' := call (CallUpdate 16) s in
  snd s = [] ∧
  snd s' =
    [] ++ [bindBuffer ARRAY_BUFFER (charBufferObject sample_board);
           bufferSubData ARRAY_BUFFER 0 (Float32Array (charBuffer (fst s)))] ∧
  charBuffer (fst s') = charBuffer (fst s) ∧
  charBufferDirty (fst s') = false.
Proof.
  intros ms.
  assert (H1 : ms ≠ []) by discriminate.
  split; [exact H1|].
  exact (uploads_are_coalesced sample_board [] ms 16 H1).
Defined.

Lemma present_glyph_is_found_witness :
  unit_interval (always (1 # 2)) ∧
  0 < rows sample_board ∧ 1 < cols sample_board ∧
  7 < verticesPerChar sample_board ∧
  toUpperCase (line_or_empty [utf16 "ac"] 0) !! 1 = Some 67%N ∧
  (67%N ∈ chars sample_board) ∧
  ∃ g : nat,
    shown (JsArray.get
             (charBuffer (setMessage (always (1 # 2)) [utf16 "ac"]
                            sample_board))
             (to_slot sample_board (0 * cols sample_board + 1) 7))
    = Some (Z.of_nat g) ∧
    chars sample_board !! g = Some 67%N ∧
    ∀ k, k < g → chars sample_board !! k ≠ Some 67%N.
Proof.
  assert (H1 : unit_interval (always (1 # 2)))
    by (apply unit_interval_always; by_computation).
  assert (H2 : 0 < rows sample_board) by (vm_compute; lia).
  assert (H3 : 1 < cols sample_board) by (vm_compute; lia).
  assert (H4 : 7 < verticesPerChar sample_board) by (vm_compute; lia).
  assert (H5 : toUpperCase (line_or_empty [utf16 "ac"] 0) !! 1 = Some 67%N)
    by reflexivity.
  assert (H6 : 67%N ∈ chars sample_board).
  { apply (list_elem_of_lookup_2 _ 2). reflexivity. }
  repeat (split; [assumption|]).
  exact (present_glyph_is_found sample_board (always (1 # 2))
           [utf16 "ac"] 0 1 7 67%N H1 H2 H3 H4 H5 H6).
Defined.

Lemma same_message_flips_nothing_witness :
  unit_interval (always (1 # 2)) ∧ unit_interval (always (1 # 4)) ∧
  1 < rows sample_board * cols sample_board ∧
  3 < verticesPerChar sample_board ∧
  let b2 :=
    setMessage (always (1 # 4)) [utf16 "AB"]
      (setMessage (always (1 # 2)) [utf16 "AB"] sample_board) in
  ∃ g : Z,
    shown (JsArray.get (charBuffer b2) (from_slot sample_board 1 3))
    = Some g ∧
    shown (JsArray.get (charBuffer b2) (to_slot sample_board 1 3)) = Some g.
Proof.
  assert (H1 : unit_interval (always (1 # 2)))
    by (apply unit_interval_always; by_computation).
  assert (H2 : unit_interval (always (1 # 4)))
    by (apply unit_interval_always; by_computation).
  assert (H3 : 1 < rows sample_board * cols sample_board)
    by (vm_compute; lia).
  assert (H4 : 3 < verticesPerChar sample_board) by (vm_compute; lia).
  repeat (split; [assumption|]).
  exact (same_message_flips_nothing sample_board (always (1 # 2))
           (always (1 # 4)) [utf16 "AB"] 1 3 H1 H2 H3 H4).
Defined.

Lemma flips_run_forward_witness :
  let cs := [CallSetMessage (always (1 # 2)) [utf16 "CB"];
             CallUpdate 16;
             CallSetMessage (always (1 # 4)) [utf16 "AC"]] in
  let b := fst (run [] sample_options cs) in
  Forall jitter_ok cs ∧
  0 < rows b * cols b ∧ 9 < 16 ∧
  ∃ from to : Q,
    JsArray.get (charBuffer b) (from_slot b 0 9) = Some from ∧
    JsArray.get (charBuffer b) (to_slot b 0 9) = Some to ∧
    glyph_index b (Qfloor to) ∧
    (Qfloor from ≤ Qfloor to)%Z ∧
    (Qfloor to - Qfloor from < Z.max 1 (glyphCount b))%Z.
Proof.
  intros cs b.
  assert (H1 : Forall jitter_ok cs).
  { repeat constructor; apply unit_interval_always; by_computation. }
  assert (H2 : 0 < rows b * cols b) by (vm_compute; lia).
  assert (H3 : 9 < 16) by lia.
  repeat (split; [assumption|]).
  exact (flips_run_forward [] sample_options cs 0 9 H1 H2 H3).
Defined.

Lemma triangles_stay_in_their_flap_witness :
  2 < opt_rows sample_options * opt_cols sample_options ∧ 7 < 8 ∧
  let ixs := indices (geometry (fst (SolariBoard [] sample_options))) in
  let first := Z.of_nat (4 * (4 * 2 + 7 / 2)) in
  ∃ p q r : Z,
    ixs !! (24 * 2 + 3 * 7) = Some p ∧
    ixs !! (24 * 2 + 3 * 7 + 1) = Some q ∧
    ixs !! (24 * 2 + 3 * 7 + 2) = Some r ∧
    p ≠ q ∧ q ≠ r ∧ p ≠ r ∧
    (first ≤ p < first + 4)%Z ∧ (first ≤ q < first + 4)%Z ∧
    (first ≤ r < first + 4)%Z.
Proof.
  assert (H1 : 2 < opt_rows sample_options * opt_cols sample_options)
    by (vm_compute; lia).
  assert (H2 : 7 < 8) by lia.
  split; [exact H1|]. split; [exact H2|].
  exact (triangles_stay_in_their_flap [] sample_options 2 7 H1 H2).
Defined.


Lemma marker_on_animated_tops_witness :
  46 < 16 * (rows sample_board * cols sample_board) ∧
  vertices (geometry sample_board) !! (5 * 46 + 2) =
  Some (if decide (46 mod 16 ∈ [10; 11; 14; 15]) then 1%Q else 0%Q).
Proof.
  assert (H1 : 46 < 16 * (rows sample_board * cols sample_board))
    by (vm_compute; lia).
  split; [exact H1|].
  exact (marker_on_animated_tops sample_board 46 H1).
Defined.

Lemma texture_coordinates_by_corner_witness :
  1 < rows sample_board * cols sample_board ∧ 14 < 16 ∧
  ∃ u v : Q,
    vertices (geometry sample_board) !! (5 * (16 * 1 + 14) + 3) = Some u ∧
    vertices (geometry sample_board) !! (5 * (16 * 1 + 14) + 4) = Some v ∧
    (u == vertex_u 14)%Q ∧ (v == vertex_v 14)%Q.
Proof.
  assert (H1 : 1 < rows sample_board * cols sample_board)
    by (vm_compute; lia).
  assert (H2 : 14 < 16) by lia.
  repeat (split; [assumption|]).
  exact (texture_coordinates_by_corner sample_board 1 14 H1 H2).
Defined.

Lemma flip_distance_is_modular_witness :
  unit_interval (always 0) ∧
  0 < rows shows_C * cols shows_C ∧ 2 < verticesPerChar shows_C ∧
  JsArray.get (charBuffer shows_C) (to_slot shows_C 0 2) = Some (41 # 20)%Q ∧
  (0 ≤ Qfloor (41 # 20) < glyphCount shows_C)%Z ∧
  ∃ from to : Q,
    JsArray.get (charBuffer (setMessage (always 0) [utf16 "A"] shows_C))
      (from_slot shows_C 0 2) = Some from ∧
    JsArray.get (charBuffer (setMessage (always 0) [utf16 "A"] shows_C))
      (to_slot shows_C 0 2) = Some to ∧
    (Qfloor to - Qfloor from =
     (Qfloor to - Qfloor (41 # 20)) mod glyphCount shows_C)%Z.
Proof.
  assert (H1 : unit_interval (always 0))
    by (apply unit_interval_always; by_computation).
  assert (H2 : 0 < rows shows_C * cols shows_C) by (vm_compute; lia).
  assert (H3 : 2 < verticesPerChar shows_C) by (vm_compute; lia).
  assert (H4 : JsArray.get (charBuffer shows_C) (to_slot shows_C 0 2)
               = Some (41 # 20)%Q) by (vm_compute; reflexivity).
  assert (H5 : (0 ≤ Qfloor (41 # 20) < glyphCount shows_C)%Z)
    by (vm_compute; split; [discriminate | reflexivity]).
  repeat (split; [assumption|]).
  exact (flip_distance_is_modular shows_C (always 0) [utf16 "A"] 0 2
           (41 # 20)%Q H1 H2 H3 H4 H5).
Defined.

Lemma timing_is_frozen_at_the_end_witness :
  let b := fst (update 1000 sample_board []) in
  let cs := [CallUpdate 50; CallSetMessage (always 0) [utf16 "A"];
             CallUpdate (-3); CallDraw] in
  (inject_Z (glyphCount b) <= timing b)%Q ∧
  timing (fst (foldl (λ s c, call c s) (b, []) cs)) = timing b.
Proof.
  intros b cs.
  assert (H1 : (inject_Z (glyphCount b) <= timing b)%Q) by by_computation.
  split; [exact H1|].
  exact (timing_is_frozen_at_the_end b [] cs H1).
Defined.
